(** * sreb_scraper: a shallow embedding of [src/sreb_scraper.py]

    The scraper is a sequential pipeline: fetch -> parse -> deduplicate ->
    upload.  The pure parts ([parse_entries], [deduplicate]) are embedded as
    Rocq functions over the modelled data (strings, the BeautifulSoup tree,
    entry records); the effectful parts ([fetch_with_requests],
    [fetch_with_playwright], [append_to_sheet], [main]) run in a small
    monad that threads the outside world's answers and records every
    external call in a trace.

    Python [str] values are modelled by [string]; the character classes of
    the string methods ([strip], [lower], [splitlines], the [re] classes) are
    written out for the ASCII range. *)

From stdpp Require Import gmap strings list pretty.
From Stdlib Require Import ZArith Ascii String Lia.

Set Warnings "-register-all,-clear-no-such-hyp".

Local Open Scope string_scope.
Local Open Scope list_scope.

(** ** Python string methods *)

Module Str.

(** [c.isspace()] for an ASCII character: TAB, LF, VT, FF, CR, the four
    separators FS GS RS US, and the space. *)
Definition isspace (c : ascii) : bool :=
  let n := nat_of_ascii c in
  (((9 <=? n) && (n <=? 13)) || ((28 <=? n) && (n <=? 31)) || (n =? 32))%nat.

(** [c.isdigit()], the class [\d] of [re] on ASCII text. *)
Definition isdigit (c : ascii) : bool :=
  let n := nat_of_ascii c in ((48 <=? n) && (n <=? 57))%nat.

Definition lower_char (c : ascii) : ascii :=
  let n := nat_of_ascii c in
  if ((65 <=? n) && (n <=? 90))%nat then ascii_of_nat (n + 32) else c.

(** [s.lower()] *)
Fixpoint lower (s : string) : string :=
  match s with
  | EmptyString => EmptyString
  | String c s' => String (lower_char c) (lower s')
  end.

Fixpoint lstrip (s : string) : string :=
  match s with
  | EmptyString => EmptyString
  | String c s' => if isspace c then lstrip s' else s
  end.

Fixpoint rstrip (s : string) : string :=
  match s with
  | EmptyString => EmptyString
  | String c s' =>
      match rstrip s' with
      | EmptyString => if isspace c then EmptyString else String c EmptyString
      | r => String c r
      end
  end.

(** [s.strip()] *)
Definition strip (s : string) : string := rstrip (lstrip s).

(** The double quote, and a text between double quotes. *)
Definition DQUOTE : ascii := ascii_of_nat 34.

Definition quoted (s : string) : string :=
  String DQUOTE s +:+ String DQUOTE EmptyString.

(** [s.startswith(p)] *)
Fixpoint startswith (p s : string) : bool :=
  match p, s with
  | EmptyString, _ => true
  | String a p', String b s' => if Ascii.eqb a b then startswith p' s' else false
  | String _ _, EmptyString => false
  end.

(** [sub in s]: [sub] occurs in [s] as a substring.  The empty string
    occurs in every string. *)
Fixpoint contains (sub s : string) : bool :=
  if startswith sub s then true
  else match s with
       | EmptyString => false
       | String _ s' => contains sub s'
       end.

(** [s.replace(old, new)] for a non-empty [old]: the occurrences of [old]
    are found left to right without overlap.  [skip] counts the characters
    of the occurrence just replaced that are still to be passed over. *)
Fixpoint replace_from (old new : string) (skip : nat) (s : string) : string :=
  match s with
  | EmptyString => EmptyString
  | String c s' =>
      match skip with
      | S k => replace_from old new k s'
      | O =>
          if startswith old s
          then new +:+ replace_from old new (String.length old - 1) s'
          else String c (replace_from old new 0 s')
      end
  end.

Definition replace (old new s : string) : string := replace_from old new 0 s.

(** A line boundary of [str.splitlines] in the ASCII range: LF, VT, FF, CR,
    FS, GS, RS (CR LF counts as one boundary). *)
Definition is_linebreak (c : ascii) : bool :=
  let n := nat_of_ascii c in
  (((10 <=? n) && (n <=? 13)) || ((28 <=? n) && (n <=? 30)))%nat.

(** [splitlines_from cur after_cr s]: the lines of [s], where [cur] (kept
    in reverse) is the part of the current line already read and
    [after_cr] says that the previous character was a CR, whose LF, if it
    comes next, belongs to the same boundary.  There is no empty last line
    after a final terminator. *)
Fixpoint splitlines_from (cur : string) (after_cr : bool) (s : string)
  : list string :=
  match s with
  | EmptyString =>
      match cur with EmptyString => [] | _ => [String.rev cur] end
  | String c s' =>
      if after_cr && (nat_of_ascii c =? 10)%nat then splitlines_from cur false s'
      else if is_linebreak c
           then String.rev cur
                  :: splitlines_from EmptyString (nat_of_ascii c =? 13)%nat s'
           else splitlines_from (String c cur) false s'
  end.

(** [s.splitlines()] *)
Definition splitlines (s : string) : list string :=
  splitlines_from EmptyString false s.

End Str.

(** ** The regular expression of [re.search] *)

Module Re.

(** The part of Python's [re] syntax the scraper uses: a character class,
    concatenation and the greedy optional [r?]. *)
Inductive regex : Type :=
| Cls (p : ascii -> bool)
| Seq (r1 r2 : regex)
| Opt (r : regex).

(** Backtracking matcher in continuation style, in the order [re] tries
    the alternatives: [r?] first with [r], then without.  The result is the
    text left after the match. *)
Fixpoint match_k (r : regex) (s : string) (k : string -> option string)
  : option string :=
  match r with
  | Cls p =>
      match s with
      | String c s' => if p c then k s' else None
      | EmptyString => None
      end
  | Seq r1 r2 => match_k r1 s (fun s1 => match_k r2 s1 k)
  | Opt r1 =>
      match match_k r1 s k with
      | Some rest => Some rest
      | None => k s
      end
  end.

(** [pattern.match(s)]: the text matched at the start of [s]. *)
Definition match_at (r : regex) (s : string) : option string :=
  match match_k r s Some with
  | Some rest => Some (substring 0 (String.length s - String.length rest) s)
  | None => None
  end.

(** [re.search(pattern, s)]: the leftmost match. *)
Fixpoint search (r : regex) (s : string) : option string :=
  match match_at r s with
  | Some m => Some m
  | None =>
      match s with
      | EmptyString => None
      | String _ s' => search r s'
      end
  end.

Definition chr (c : ascii) : regex := Cls (Ascii.eqb c).
Definition digit : regex := Cls Str.isdigit.
Definition digits3 : regex := Seq digit (Seq digit digit).
Definition digits4 : regex := Seq digit digits3.

(** The class [[-.\s]]. *)
Definition sep : regex :=
  Cls (fun c => Ascii.eqb c "-" || Ascii.eqb c "." || Str.isspace c).

(** [(\(?\d{3}\)?[-.\s]?\d{3}[-.\s]?\d{4})]; its group 1 is the whole
    match. *)
Definition phone_pattern : regex :=
  Seq (Opt (chr "("))
    (Seq digits3
       (Seq (Opt (chr ")"))
          (Seq (Opt sep) (Seq digits3 (Seq (Opt sep) digits4))))).

End Re.

(** ** The BeautifulSoup tree *)

Module Bs4.

(** A node of the parse tree.  [NavigableString] is a text node (or a
    CDATA section);
    [SpecialString] stands for the string classes that [get_text] leaves
    out (comments, declarations, ...); a [Tag] has a name, its attribute
    dict in insertion order, and its contents.  The [BeautifulSoup] object
    is the tag named [[document]] at the root. *)
Inductive PageElement : Type :=
| NavigableString (s : string)
| SpecialString (s : string)
| Tag (name : string) (attrs : list (string * string))
      (contents : list PageElement).

Definition ROOT_TAG_NAME : string := "[document]".

(** A node together with the chain of its parents, nearest first: what the
    [.parent] links of a node of the tree give. *)
Record Located : Type := Loc {
  elem : PageElement;
  parent : PageElement;
  grandparents : list PageElement
}.

Definition parents (l : Located) : list PageElement :=
  parent l :: grandparents l.

(** [tag.descendants] in document order; [above] are the parents of
    [e]. *)
Fixpoint descendants (above : list PageElement) (e : PageElement)
  : list Located :=
  match e with
  | Tag _ _ contents =>
      flat_map (fun c => Loc c e above :: descendants (e :: above) c) contents
  | _ => []
  end.

Definition name_of (e : PageElement) : option string :=
  match e with Tag n _ _ => Some n | _ => None end.

(** [tag.get(key, default)] *)
Fixpoint dict_get (d : list (string * string)) (key default : string) : string :=
  match d with
  | [] => default
  | (k, v) :: d' => if String.eqb k key then v else dict_get d' key default
  end.

Definition get (e : PageElement) (key default : string) : string :=
  match e with
  | Tag _ attrs _ => dict_get attrs key default
  | _ => default
  end.

(** The attribute value an attribute selector looks at: in an HTML
    document the first attribute whose name is [attr] up to letter case. *)
Fixpoint match_attribute_name (d : list (string * string)) (attr : string)
  : option string :=
  match d with
  | [] => None
  | (k, v) :: d' =>
      if String.eqb (Str.lower k) (Str.lower attr) then Some v
      else match_attribute_name d' attr
  end.

(** The selector [a[href^="mailto:"]]: an [a] tag with an [href] that
    starts with [mailto:]. *)
Definition matches_mailto (e : PageElement) : bool :=
  match e with
  | Tag n attrs _ =>
      String.eqb n "a" &&
      match match_attribute_name attrs "href" with
      | Some v => Str.startswith "mailto:" v
      | None => false
      end
  | _ => false
  end.

(** [soup.select('a[href^="mailto:"]')]: the matching descendants, in
    document order. *)
Definition select_mailto (soup : PageElement) : list Located :=
  List.filter (fun l => matches_mailto (elem l)) (descendants [] soup).

(** [el.find_parent(names)]: the nearest parent whose name is listed. *)
Definition find_parent (names : list string) (l : Located)
  : option PageElement :=
  List.find
    (fun p => match name_of p with
              | Some n => existsb (String.eqb n) names
              | None => false
              end)
    (parents l).

(** The strings [get_text] joins when [strip=True]: every text node below
    the tag, stripped, the empty ones left out. *)
Fixpoint stripped_strings (e : PageElement) : list string :=
  match e with
  | NavigableString s =>
      match Str.strip s with
      | EmptyString => []
      | t => [t]
      end
  | SpecialString _ => []
  | Tag _ _ contents => flat_map stripped_strings contents
  end.

(** [tag.get_text(separator, strip=True)] *)
Definition get_text (separator : string) (e : PageElement) : string :=
  String.concat separator (stripped_strings e).

(** *** The tree builder, on a fragment of HTML

    [BeautifulSoup(markup, "html.parser")] is library code.  The functions
    below follow Python's [html.parser] tokenizer and bs4's tree builder on
    the fragment of HTML made of text without [&], start tags
    [<name attr="value" ...>] (also attributes without a value), end tags
    [</name>] and the void elements, which is what the concrete pages of
    this development are written in.  Markup outside the fragment
    (character references, comments, declarations, [/>], unquoted or
    single-quoted values, end tags of void elements, control characters
    inside a tag, the elements whose content is not parsed as markup or
    whose white space is kept) is refused by the tokenizer. *)

Inductive token : Type :=
| TStart (name : string) (attrs : list (string * string))
| TEnd (name : string)
| TData (data : string).

Inductive lex_state : Type :=
| InData (data : string)
| TagOpen
| StartName (name : string)
| BeforeAttr (name : string) (attrs : list (string * string))
| AttrName (name : string) (attrs : list (string * string)) (an : string)
| AfterEq (name : string) (attrs : list (string * string)) (an : string)
| AttrValue (name : string) (attrs : list (string * string)) (an v : string)
| AfterValue (name : string) (attrs : list (string * string))
| EndOpen
| EndName (name : string)
| EndAfter (name : string).

Definition isalpha (c : ascii) : bool :=
  let n := nat_of_ascii c in
  (((65 <=? n) && (n <=? 90)) || ((97 <=? n) && (n <=? 122)))%nat.

(** The white space of HTML: space, TAB, LF, FF, CR. *)
Definition istagspace (c : ascii) : bool :=
  existsb (Ascii.eqb c)
    [" "; ascii_of_nat 9; ascii_of_nat 10; ascii_of_nat 12; ascii_of_nat 13]%char.

(** Inside a tag, NUL and the other white space of Python are outside the
    fragment. *)
Definition refused_in_tag (c : ascii) : bool :=
  Ascii.eqb c zero || (Str.isspace c && negb (istagspace c)).

Definition is_endname_char (c : ascii) : bool :=
  isalpha c || Str.isdigit c ||
  existsb (Ascii.eqb c) ["-"; "."; ":"; "_"]%char.

(** [attr_dict[key] = value]: a key already present keeps its place and
    takes the new value. *)
Fixpoint dict_set (d : list (string * string)) (key value : string)
  : list (string * string) :=
  match d with
  | [] => [(key, value)]
  | (k, v) :: d' =>
      if String.eqb k key then (k, value) :: d'
      else (k, v) :: dict_set d' key value
  end.

(** bs4's [HTMLTreeBuilder.empty_element_tags]. *)
Definition empty_element_tags : list string :=
  ["area"; "base"; "br"; "col"; "embed"; "hr"; "img"; "input"; "keygen";
   "link"; "menuitem"; "meta"; "param"; "source"; "track"; "wbr";
   "basefont"; "bgsound"; "command"; "frame"; "image"; "isindex"; "nextid";
   "spacer"].

Definition is_empty_element (name : string) : bool :=
  existsb (String.eqb name) empty_element_tags.

Definition data_token (data : string) : list token :=
  match data with
  | EmptyString => []
  | _ => [TData (String.rev data)]
  end.

(** The elements whose content [html.parser] does not read as markup, and
    those in which bs4 keeps white space as it is. *)
Definition RAW_OR_PRESERVED : list string :=
  ["script"; "style"; "xmp"; "iframe"; "noembed"; "noframes"; "plaintext";
   "textarea"; "title"; "pre"].

Definition start_token (name : string) (attrs : list (string * string))
  (rest : option (list token)) : option (list token) :=
  let n := Str.lower (String.rev name) in
  if existsb (String.eqb n) RAW_OR_PRESERVED then None
  else option_map (cons (TStart n attrs)) rest.

(** An end tag of a void element is outside the fragment. *)
Definition end_token (name : string) (rest : option (list token))
  : option (list token) :=
  let n := Str.lower (String.rev name) in
  if is_empty_element n then None else option_map (cons (TEnd n)) rest.

Definition add_attr (attrs : list (string * string)) (an v : string)
  : list (string * string) :=
  dict_set attrs (Str.lower (String.rev an)) (String.rev v).

Definition in_tag (st : lex_state) : bool :=
  match st with
  | InData _ | AttrValue _ _ _ _ => false
  | _ => true
  end.

(** The tokenizer: one character at a time; names and data are
    accumulated in reverse. *)
Fixpoint lex (st : lex_state) (s : string) : option (list token) :=
  match s with
  | EmptyString =>
      match st with
      | InData data => Some (data_token data)
      | _ => None
      end
  | String c s' =>
      if in_tag st && refused_in_tag c then None else
      match st with
      | InData data =>
          if Ascii.eqb c "<" then option_map (app (data_token data)) (lex TagOpen s')
          else if Ascii.eqb c "&" then None
          else lex (InData (String c data)) s'
      | TagOpen =>
          if isalpha c then lex (StartName (String c EmptyString)) s'
          else if Ascii.eqb c "/" then lex EndOpen s'
          else None
      | StartName name =>
          if istagspace c then lex (BeforeAttr name []) s'
          else if Ascii.eqb c ">" then start_token name [] (lex (InData EmptyString) s')
          else if Ascii.eqb c "/" then None
          else lex (StartName (String c name)) s'
      | BeforeAttr name attrs =>
          if istagspace c then lex (BeforeAttr name attrs) s'
          else if Ascii.eqb c ">" then start_token name attrs (lex (InData EmptyString) s')
          else if existsb (Ascii.eqb c) [Str.DQUOTE; "/"; "="; "'"; "&"]%char then None
          else lex (AttrName name attrs (String c EmptyString)) s'
      | AttrName name attrs an =>
          if Ascii.eqb c "=" then lex (AfterEq name attrs an) s'
          else if istagspace c then lex (BeforeAttr name (add_attr attrs an EmptyString)) s'
          else if Ascii.eqb c ">"
               then start_token name (add_attr attrs an EmptyString)
                      (lex (InData EmptyString) s')
          else if existsb (Ascii.eqb c) [Str.DQUOTE; "/"; "'"; "&"]%char then None
          else lex (AttrName name attrs (String c an)) s'
      | AfterEq name attrs an =>
          if Ascii.eqb c Str.DQUOTE then lex (AttrValue name attrs an EmptyString) s'
          else None
      | AttrValue name attrs an v =>
          if Ascii.eqb c Str.DQUOTE then lex (AfterValue name (add_attr attrs an v)) s'
          else if Ascii.eqb c "&" then None
          else lex (AttrValue name attrs an (String c v)) s'
      | AfterValue name attrs =>
          if istagspace c then lex (BeforeAttr name attrs) s'
          else if Ascii.eqb c ">" then start_token name attrs (lex (InData EmptyString) s')
          else None
      | EndOpen =>
          if isalpha c then lex (EndName (String c EmptyString)) s' else None
      | EndName name =>
          if is_endname_char c then lex (EndName (String c name)) s'
          else if istagspace c then lex (EndAfter name) s'
          else if Ascii.eqb c ">"
               then end_token name (lex (InData EmptyString) s')
          else None
      | EndAfter name =>
          if istagspace c then lex (EndAfter name) s'
          else if Ascii.eqb c ">"
               then end_token name (lex (InData EmptyString) s')
          else None
      end
  end.

Definition tokenize (markup : string) : option (list token) :=
  lex (InData EmptyString) markup.

(** An open tag of the builder's [tagStack]; the contents are kept in
    reverse. *)
Record open_tag : Type := Open {
  open_name : string;
  open_attrs : list (string * string);
  open_contents : list PageElement
}.

Definition close_tag (t : open_tag) : PageElement :=
  Tag (open_name t) (open_attrs t) (List.rev (open_contents t)).

Definition add_child (e : PageElement) (t : open_tag) : open_tag :=
  Open (open_name t) (open_attrs t) (e :: open_contents t).

Definition ASCII_SPACES : list ascii :=
  [" "; ascii_of_nat 10; ascii_of_nat 9; ascii_of_nat 12; ascii_of_nat 13]%char.

Fixpoint all_chars (p : ascii -> bool) (s : string) : bool :=
  match s with
  | EmptyString => true
  | String c s' => p c && all_chars p s'
  end.

(** [endData]: a string of ASCII spaces only is replaced by one newline if
    it has one, by one space otherwise. *)
Definition endData (data : string) : PageElement :=
  if all_chars (fun c => existsb (Ascii.eqb c) ASCII_SPACES) data
  then if Str.contains (String (ascii_of_nat 10) EmptyString) data
       then NavigableString (String (ascii_of_nat 10) EmptyString)
       else NavigableString " "
  else NavigableString data.

(** [popTag]: the innermost open tag is closed and becomes the last child
    of the one below it.  The root is never popped. *)
Definition popTag (stack : list open_tag) : list open_tag :=
  match stack with
  | t :: p :: below => add_child (close_tag t) p :: below
  | _ => stack
  end.

(** The loop of [_popToTag name]: [t] is the innermost open tag and
    [below] the tags under it; tags are popped until one called [name] has
    been popped. *)
Fixpoint pop_until (name : string) (t : open_tag) (below : list open_tag)
  : list open_tag :=
  match below with
  | [] => [t]
  | p :: below' =>
      let p' := add_child (close_tag t) p in
      if String.eqb (open_name t) name then p' :: below'
      else pop_until name p' below'
  end.

(** [_popToTag name]: nothing is popped when no tag called [name] is
    open. *)
Definition popToTag (name : string) (stack : list open_tag) : list open_tag :=
  if existsb (fun t => String.eqb (open_name t) name) (removelast stack)
  then match stack with
       | t :: below => pop_until name t below
       | [] => []
       end
  else stack.

(** The handlers [handle_data], [handle_starttag] (a void element is
    closed at once) and [handle_endtag]. *)
Definition handle (stack : list open_tag) (tok : token) : list open_tag :=
  match tok with
  | TData data =>
      match stack with
      | t :: below => add_child (endData data) t :: below
      | [] => []
      end
  | TStart name attrs =>
      let stack' := Open name attrs [] :: stack in
      if is_empty_element name then popTag stack' else stack'
  | TEnd name => popToTag name stack
  end.

(** At the end of the input every tag still open is closed. *)
Fixpoint close_all (t : open_tag) (below : list open_tag) : PageElement :=
  match below with
  | [] => close_tag t
  | p :: below' => close_all (add_child (close_tag t) p) below'
  end.

Definition build (tokens : list token) : PageElement :=
  match fold_left handle tokens [Open ROOT_TAG_NAME [] []] with
  | t :: below => close_all t below
  | [] => Tag ROOT_TAG_NAME [] []
  end.

(** [BeautifulSoup(markup, "html.parser")] on the fragment; the empty
    document stands for refused markup. *)
Definition html_parser (markup : string) : PageElement :=
  match tokenize markup with
  | Some tokens => build tokens
  | None => Tag ROOT_TAG_NAME [] []
  end.

End Bs4.

(** ** The scraper: entries, [parse_entries], [deduplicate] *)

(** A contact entry: the dict with the keys [Name], [Brokerage], [Email]
    and [Phone] that [parse_entries] builds. *)
Record Entry : Type := mkEntry {
  Name : string;
  Brokerage : string;
  Email : string;
  Phone : string
}.

#[global] Instance Entry_eq_dec : EqDecision Entry.
Proof. solve_decision. Defined.

(** The separator [" \n"] of [get_text]. *)
Definition SEPARATOR : string := String " " (String (ascii_of_nat 10) EmptyString).

(** [mailto.get("href", "").replace("mailto:", "").strip()] *)
Definition email_of (mailto : Bs4.PageElement) : string :=
  Str.strip (Str.replace "mailto:" "" (Bs4.get mailto "href" "")).

(** [mailto.find_parent(["div", "li", "tr"]) or mailto.parent]; a tag is
    always true. *)
Definition block_of (mailto : Bs4.Located) : Bs4.PageElement :=
  match Bs4.find_parent ["div"; "li"; "tr"] mailto with
  | Some b => b
  | None => Bs4.parent mailto
  end.

(** [phone_match.group(1) if phone_match else ""] *)
Definition phone_of (text : string) : string :=
  match Re.search Re.phone_pattern text with
  | Some m => m
  | None => ""
  end.

(** [[t for t in text.splitlines()
       if t and email not in t and phone not in t]] *)
Definition lines_of (text email phone : string) : list string :=
  List.filter
    (fun t => negb (String.eqb t "") && negb (Str.contains email t)
              && negb (Str.contains phone t))
    (Str.splitlines text).

(** The entry built from a block's text, once the email is known. *)
Definition entry_of_text (text email : string) : Entry :=
  let phone := phone_of text in
  let lines := lines_of text email phone in
  let name := match lines with t :: _ => t | [] => "" end in
  let brokerage := match lines with _ :: t :: _ => t | _ => "" end in
  {| Name := name; Brokerage := brokerage; Email := email; Phone := phone |}.

(** The body of the loop of [parse_entries] for one link: [None] stands
    for [continue], [Some e] for [entries.append(e)]. *)
Definition entry_of_link (mailto : Bs4.Located) : option Entry :=
  let email := email_of (Bs4.elem mailto) in
  if String.eqb email "" then None
  else
    let block := block_of mailto in
    let text := Bs4.get_text SEPARATOR block in
    Some (entry_of_text text email).

Definition parse_step (entries : list Entry) (mailto : Bs4.Located)
  : list Entry :=
  match entry_of_link mailto with
  | Some e => entries ++ [e]
  | None => entries
  end.

Section ParseEntries.

(** [BeautifulSoup(html, "html.parser")], the tree builder of the
    library. *)
Variable BeautifulSoup : string -> Bs4.PageElement.

Definition parse_entries (html : string) : list Entry :=
  let soup := BeautifulSoup html in
  fold_left parse_step (Bs4.select_mailto soup) [].

End ParseEntries.

(** *** What the specification says of the parser *)

(** [href.removeprefix("mailto:")]: the text after the scheme. *)
Definition removeprefix_mailto (href : string) : string :=
  if Str.startswith "mailto:" href
  then substring 7 (String.length href - 7) href
  else href.

(** The address a [mailto:] link targets: what follows the scheme, without
    the surrounding white space. *)
Definition target_address (href : string) : string :=
  Str.strip (removeprefix_mailto href).

(** Step 5 of the parser: the lines that remain once those containing the
    email or the matched phone string are removed; when no phone matched
    there is no phone string to look for.  Empty lines are no lines. *)
Definition remaining_lines (text email : string) (phone_match : option string)
  : list string :=
  List.filter
    (fun t => negb (String.eqb t "") && negb (Str.contains email t)
              && match phone_match with
                 | Some phone => negb (Str.contains phone t)
                 | None => true
                 end)
    (Str.splitlines text).

(** [r.get("Email", "").lower()], the key of [deduplicate]. *)
Definition email_key (r : Entry) : string := Str.lower (Email r).

(** One turn of the loop of [deduplicate]: the state is the set [seen]
    and the list [unique]. *)
Definition dedup_step (st : gset string * list Entry) (r : Entry)
  : gset string * list Entry :=
  let '(seen, unique) := st in
  let key := email_key r in
  if negb (String.eqb key "") && negb (bool_decide (key ∈ seen))
  then ({[key]} ∪ seen, unique ++ [r])
  else (seen, unique).

Definition deduplicate (rows : list Entry) : list Entry :=
  snd (fold_left dedup_step rows (∅, [])).

(** *** What the specification says of [deduplicate]

    The entry at position [i] is retained when its email is not empty and
    no entry before it has the same email up to letter case; the output is
    the retained entries in the order of the input. *)
Definition retained (rows : list Entry) (i : nat) : option Entry :=
  match rows !! i with
  | Some r =>
      if bool_decide (Email r ≠ "" ∧
                      Forall (fun r' => email_key r' ≠ email_key r) (take i rows))
      then Some r else None
  | None => None
  end.

Definition first_occurrences (rows : list Entry) : list Entry :=
  omap (retained rows) (seq 0 (List.length rows)).

(** The loop of [deduplicate] as a recursive function of the set [seen]
    and the rows still to scan. *)
Fixpoint dedup_from (seen : gset string) (rows : list Entry) : list Entry :=
  match rows with
  | [] => []
  | r :: rest =>
      let key := email_key r in
      if negb (String.eqb key "") && negb (bool_decide (key ∈ seen))
      then r :: dedup_from ({[key]} ∪ seen) rest
      else dedup_from seen rest
  end.

(** The set [seen] holds the non-empty keys of the rows already scanned. *)
Definition seen_of (seen : gset string) (pre : list Entry) : Prop :=
  ∀ k, k ≠ "" → (k ∈ seen ↔ k ∈ email_key <$> pre).

(** ** The outside world: external calls, their outcomes, the trace *)

(** Every call that leaves the program. *)
Inductive Call : Type :=
| load_dotenv
| mkdir (path : string)
| logging_basicConfig (filename : string)
| logging_info (msg : string)
| requests_get (url : string)
| time_sleep (seconds : nat)
| sync_playwright_enter
| chromium_launch (headless : bool)
| browser_new_page
| page_goto (url : string)
| page_content
| browser_close
| sync_playwright_exit
| from_json_keyfile_name (path : string) (scope : list string)
| gspread_authorize
| open_by_key (key : string)
| worksheet (title : string)
| append_rows (data : list (list string)) (value_input_option : string).

#[global] Instance Call_eq_dec : EqDecision Call.
Proof. solve_decision. Defined.

(** What the outside answers during one run.  [raises t c] says that the
    call [c], made after the calls [t], raises an exception.  For a path,
    [stat_error] says that looking it up fails with an error other than the
    ones that mean that it is not there (a name too long, a directory
    that may not be searched), and [path_exists] that it is there. *)
Record World : Type := mkWorld {
  raises : list Call -> Call -> bool;
  response : string -> Z * string;
  rendered : string;
  environ : string -> option string;
  path_exists : string -> bool;
  stat_error : string -> bool
}.

Inductive Exception : Type :=
| RuntimeError (msg : string)
| OSError (path : string)
| Raised (c : Call).

Inductive Result (A : Type) : Type :=
| Ok (a : A)
| Raise (e : Exception).
Arguments Ok {A} a.
Arguments Raise {A} e.

(** The state of a run: the calls made so far, and the two resources of the
    rendered fetch, the Playwright driver and the browser it launched. *)
Record State : Type := mkState {
  trace : list Call;
  playwright_running : bool;
  browser_open : bool
}.

Definition initial : State := mkState [] false false.

(** Computations that read the world, change the state, and return or
    raise. *)
Definition M (A : Type) : Type := World -> State -> State * Result A.

Definition ret {A} (a : A) : M A := fun _ st => (st, Ok a).

Definition raise {A} (e : Exception) : M A := fun _ st => (st, Raise e).

Definition bind {A B} (m : M A) (f : A -> M B) : M B :=
  fun w st =>
    match m w st with
    | (st', Ok a) => f a w st'
    | (st', Raise e) => (st', Raise e)
    end.

Notation "x <- m ;; k" := (bind m (fun x => k))
  (at level 100, m at next level, right associativity).
Notation "m ;;; k" := (bind m (fun _ => k))
  (at level 100, right associativity).

(** What a call that returns does to the resources.  Leaving the
    [sync_playwright] context stops the driver, and with it the browser it
    launched. *)
Definition effect (c : Call) (st : State) : State :=
  match c with
  | sync_playwright_enter => mkState (trace st) true (browser_open st)
  | chromium_launch _ => mkState (trace st) (playwright_running st) true
  | browser_close => mkState (trace st) (playwright_running st) false
  | sync_playwright_exit => mkState (trace st) false false
  | _ => st
  end.

Definition record (c : Call) (st : State) : State :=
  mkState (trace st ++ [c]) (playwright_running st) (browser_open st).

(** An external call: it is recorded, then it raises or takes effect. *)
Definition call (c : Call) : M unit :=
  fun w st =>
    if raises w (trace st) c then (record c st, Raise (Raised c))
    else (effect c (record c st), Ok tt).

(** A call that cannot raise: the [logging] module reports the errors of
    its handlers on [stderr] and goes on. *)
Definition emit (c : Call) : M unit :=
  fun _ st => (effect c (record c st), Ok tt).

(** A call that returns a value read from the world. *)
Definition call_for {A} (c : Call) (answer : World -> A) : M A :=
  call c ;;; (fun w st => (st, Ok (answer w))).

(** [with sync_playwright() as p: body]: the context is entered; if that
    succeeds the body is run and, however it ends, the context is left
    before the body's result or exception goes on. *)
Definition with_sync_playwright {A} (body : M A) : M A :=
  fun w st =>
    match call sync_playwright_enter w st with
    | (st1, Raise e) => (st1, Raise e)
    | (st1, Ok _) =>
        let '(st2, r) := body w st1 in
        (effect sync_playwright_exit (record sync_playwright_exit st2), r)
    end.

(** ** The effectful functions of the scraper *)

Definition URL : string := "https://sudburyrealestateboard.com/find-a-realtor/".
Definition SHEET_ID : string := "1-kGNDW07iQ7WarkpHmhPCgI6wEHFyFbf6-VqnIEiYQs".
Definition SHEET_TAB : string := "Mortgage Agent List".

Definition setup_logging : M unit :=
  call (mkdir "logs") ;;;
  call (logging_basicConfig "logs/scrape.log").

Definition fetch_with_requests (url : string) : M string :=
  resp <- call_for (requests_get url) (fun w => response w url) ;;
  let '(status_code, text) := resp in
  if negb (Z.eqb status_code 200)
  then raise (RuntimeError
                ("HTTP " +:+ pretty status_code +:+ " while fetching " +:+ url))
  else
    call (time_sleep 1) ;;;
    ret text.

Definition fetch_with_playwright (url : string) (headless : bool) : M string :=
  with_sync_playwright (
    call (chromium_launch headless) ;;;
    call browser_new_page ;;;
    call (page_goto url) ;;;
    call (time_sleep 1) ;;;
    content <- call_for page_content rendered ;;
    call browser_close ;;;
    ret content).

Definition MISSING_CREDS : string :=
  "Missing GOOGLE_CREDS_JSON environment variable or file".

Definition SCOPE : list string :=
  ["https://spreadsheets.google.com/feeds";
   "https://www.googleapis.com/auth/drive"].

(** [os.environ.get(name)] reads the process environment. *)
Definition os_environ_get (name : string) : M (option string) :=
  fun w st => (st, Ok (environ w name)).

(** [Path(p).exists()] looks the path up in the file system: the errors
    ENOENT, ENOTDIR, EBADF and ELOOP of the look-up mean [False]; any other
    [OSError] is raised again. *)
Definition Path_exists (p : string) : M bool :=
  fun w st =>
    if stat_error w p then (st, Raise (OSError p))
    else (st, Ok (path_exists w p)).

(** In [not creds_path or not Path(creds_path).exists()] the file is looked
    up only for a path that is there and not empty. *)
Definition append_to_sheet (rows : list Entry) : M unit :=
  creds_path <- os_environ_get "GOOGLE_CREDS_JSON" ;;
  match creds_path with
  | None => raise (RuntimeError MISSING_CREDS)
  | Some creds_path =>
      if String.eqb creds_path "" then raise (RuntimeError MISSING_CREDS)
      else
        found <- Path_exists creds_path ;;
        if negb found then raise (RuntimeError MISSING_CREDS)
        else
          call (from_json_keyfile_name creds_path SCOPE) ;;;
          call gspread_authorize ;;;
          call (open_by_key SHEET_ID) ;;;
          call (worksheet SHEET_TAB) ;;;
          let data :=
            List.map (fun r => [Name r; Brokerage r; Email r; Phone r]) rows in
          match data with
          | [] => ret tt
          | _ => call (append_rows data "USER_ENTERED")
          end
  end.

(** The [type] of the [--headless] flag: [str(x).lower() != "false"]. *)
Definition headless_type (x : string) : bool :=
  negb (String.eqb (Str.lower x) "false").

(** [args.headless]: the default is [True]. *)
Definition parse_args (headless_arg : option string) : bool :=
  match headless_arg with
  | Some x => headless_type x
  | None => true
  end.

Section Main.

Variable BeautifulSoup : string -> Bs4.PageElement.

(** [main], given the value of [--headless] on the command line, if any. *)
Definition main (headless_arg : option string) : M unit :=
  call load_dotenv ;;;
  let headless := parse_args headless_arg in
  setup_logging ;;;
  emit (logging_info "Starting scrape") ;;;
  html <- fetch_with_requests URL ;;
  let entries := parse_entries BeautifulSoup html in
  entries <- match entries with
             | [] =>
                 emit (logging_info "Switching to Playwright scraping") ;;;
                 html <- fetch_with_playwright URL headless ;;
                 ret (parse_entries BeautifulSoup html)
             | _ => ret entries
             end ;;
  let rows := deduplicate entries in
  emit (logging_info
          ("Parsed " +:+ pretty (List.length rows) +:+ " unique rows")) ;;;
  append_to_sheet rows ;;;
  emit (logging_info "Completed upload").

(** [main] from the result [html] of the static fetch on. *)
Definition after_static (headless_arg : option string) (html : string)
  : M unit :=
  let headless := parse_args headless_arg in
  let entries := parse_entries BeautifulSoup html in
  entries <- match entries with
             | [] =>
                 emit (logging_info "Switching to Playwright scraping") ;;;
                 html <- fetch_with_playwright URL headless ;;
                 ret (parse_entries BeautifulSoup html)
             | _ => ret entries
             end ;;
  let rows := deduplicate entries in
  emit (logging_info
          ("Parsed " +:+ pretty (List.length rows) +:+ " unique rows")) ;;;
  append_to_sheet rows ;;;
  emit (logging_info "Completed upload").

(** The run of [main] up to the static fetch and its result. *)
Definition static_phase : M string :=
  call load_dotenv ;;;
  setup_logging ;;;
  emit (logging_info "Starting scrape") ;;;
  fetch_with_requests URL.

End Main.

(** *** Observations on traces *)

(** The calls to the spreadsheet service: authentication, opening the
    spreadsheet and its tab, appending. *)
Definition is_sheet_call (c : Call) : bool :=
  match c with
  | gspread_authorize | open_by_key _ | worksheet _ | append_rows _ _ => true
  | _ => false
  end.

Definition sheet_calls (t : list Call) : list Call := List.filter is_sheet_call t.

Definition is_append (c : Call) : bool :=
  match c with append_rows _ _ => true | _ => false end.

(** Every run of [fetch_with_playwright] begins by entering the
    [sync_playwright] context, once: the number of these calls is the
    number of times the rendered fetch was invoked. *)
Definition rendered_fetches (t : list Call) : nat :=
  List.length (List.filter (fun c => bool_decide (c = sync_playwright_enter)) t).

(** [adds n m]: a run of [m] invokes the rendered fetch exactly [n] times,
    whatever the world answers. *)
Definition adds {A} (n : nat) (m : M A) : Prop :=
  forall w st,
    rendered_fetches (trace (fst (m w st))) = rendered_fetches (trace st) + n.

(** *** Concrete pages and worlds *)

(** Scenario A of the specification:
    [<li><a href="mailto:jane@ex.com">jane@ex.com</a> Jane Doe ABC Realty (705) 555-1234</li>] *)
Definition markup_A : string :=
  "<li><a href=" +:+ Str.quoted "mailto:jane@ex.com"
  +:+ ">jane@ex.com</a> Jane Doe ABC Realty (705) 555-1234</li>".

(** A block whose fields are on lines of their own, with a phone:
    [<li><a href="mailto:jane@ex.com">jane@ex.com</a><br>Jane Doe<br>ABC Realty<br>(705) 555-1234</li>] *)
Definition markup_lines : string :=
  "<li><a href=" +:+ Str.quoted "mailto:jane@ex.com"
  +:+ ">jane@ex.com</a><br>Jane Doe<br>ABC Realty<br>(705) 555-1234</li>".

(** The same block without a phone:
    [<li><a href="mailto:jane@ex.com">jane@ex.com</a><br>Jane Doe<br>ABC Realty</li>] *)
Definition markup_no_phone : string :=
  "<li><a href=" +:+ Str.quoted "mailto:jane@ex.com"
  +:+ ">jane@ex.com</a><br>Jane Doe<br>ABC Realty</li>".

(** A link whose subject field contains [mailto:] again:
    [<p><a href="mailto:a@b.com?subject=mailto:x">write</a></p>] *)
Definition markup_subject : string :=
  "<p><a href=" +:+ Str.quoted "mailto:a@b.com?subject=mailto:x"
  +:+ ">write</a></p>".

(** A page without any [mailto:] link:
    [<html><body><div id="app"></div></body></html>] *)
Definition markup_empty : string :=
  "<html><body><div id=" +:+ Str.quoted "app" +:+ "></div></body></html>".

(** A world in which no call raises, the static page is [static], the
    rendered page is [dynamic], and the credential file is in place. *)
Definition quiet_world (static dynamic : string) : World :=
  {| raises := fun _ _ => false;
     response := fun _ => (200%Z, static);
     rendered := dynamic;
     environ := fun name =>
       if String.eqb name "GOOGLE_CREDS_JSON" then Some "creds.json" else None;
     path_exists := fun p => String.eqb p "creds.json";
     stat_error := fun _ => false |}.

(** The same world without the credential variable. *)
Definition no_creds_world (static dynamic : string) : World :=
  {| raises := fun _ _ => false;
     response := fun _ => (200%Z, static);
     rendered := dynamic;
     environ := fun _ => None;
     path_exists := fun _ => false;
     stat_error := fun _ => false |}.

(** A world whose credential variable names a file in a directory that
    may not be searched: the file is not there for the program, and
    looking it up fails. *)
Definition unsearchable_world : World :=
  {| raises := fun _ _ => false;
     response := fun _ => (200%Z, markup_A);
     rendered := markup_A;
     environ := fun name =>
       if String.eqb name "GOOGLE_CREDS_JSON" then Some "/root/creds.json"
       else None;
     path_exists := fun _ => false;
     stat_error := fun p => String.eqb p "/root/creds.json" |}.

(** A world in which navigation fails. *)
Definition goto_fails_world : World :=
  {| raises := fun _ c => bool_decide (c = page_goto URL);
     response := fun _ => (200%Z, markup_empty);
     rendered := markup_lines;
     environ := fun _ => None;
     path_exists := fun _ => false;
     stat_error := fun _ => false |}.

(** Scenario B of the specification: the same email in two letter
    cases. *)
Definition jane : Entry :=
  mkEntry "Jane Doe" "ABC Realty" "Jane@Ex.com" "(705) 555-1234".
Definition jane_again : Entry := mkEntry "J. Doe" "ABC" "jane@ex.COM" "".
Definition anonymous : Entry := mkEntry "Nobody" "" "" "".
Definition bob : Entry := mkEntry "Bob Roe" "XYZ Realty" "bob@ex.com" "".

(** ** Notions for the further properties of the code *)

(** The language of a pattern: the texts it matches from end to end. *)
Fixpoint lang (r : Re.regex) (m : string) : Prop :=
  match r with
  | Re.Cls p => ∃ c, m = String c EmptyString ∧ p c = true
  | Re.Seq r1 r2 => ∃ m1 m2, m = m1 +:+ m2 ∧ lang r1 m1 ∧ lang r2 m2
  | Re.Opt r1 => m = EmptyString ∨ lang r1 m
  end.

(** The number of characters of [s] in the class [p]. *)
Fixpoint count_chars (p : ascii → bool) (s : string) : nat :=
  match s with
  | EmptyString => 0
  | String c s' => (if p c then 1 else 0) + count_chars p s'
  end.

(** The first and the last character of a string. *)
Definition first_char (s : string) : option ascii :=
  match s with
  | EmptyString => None
  | String c _ => Some c
  end.

Fixpoint last_char (s : string) : option ascii :=
  match s with
  | EmptyString => None
  | String c EmptyString => Some c
  | String _ s' => last_char s'
  end.

(** A character that is no line boundary. *)
Definition no_break (c : ascii) : bool := negb (Str.is_linebreak c).

(** What holds of the Name and of the Brokerage of an entry with the
    given email and phone, when it is not empty: it contains neither of
    them, nor a line boundary. *)
Definition clean_field (email phone field : string) : Prop :=
  field = EmptyString ∨
  (Str.contains email field = false ∧ Str.contains phone field = false ∧
   Bs4.all_chars no_break field = true).

(** A text with no white space at either end. *)
Definition trimmed (s : string) : Prop :=
  ∃ c1 c2, first_char s = Some c1 ∧ last_char s = Some c2 ∧
           Str.isspace c1 = false ∧ Str.isspace c2 = false.

(** The lower-cased emails of a list of rows. *)
Definition keys_of (rows : list Entry) : gset string :=
  list_to_set (email_key <$> rows).

(** The row of the sheet for an entry: the four columns in order. *)
Definition sheet_row (r : Entry) : list string :=
  [Name r; Brokerage r; Email r; Phone r].

(** [emits P m]: whatever the world answers, a run of [m] adds to the
    trace only calls that satisfy [P]. *)
Definition emits {A} (P : Call → Prop) (m : M A) : Prop :=
  ∀ w st, ∃ new, trace (fst (m w st)) = trace st ++ new ∧ Forall P new.

(** The calls [append_to_sheet rows] can make, in their order. *)
Definition upload_calls (creds_path : string) (rows : list Entry) : list Call :=
  [from_json_keyfile_name creds_path SCOPE; gspread_authorize;
   open_by_key SHEET_ID; worksheet SHEET_TAB]
  ++ match rows with
     | [] => []
     | _ => [append_rows (sheet_row <$> rows) "USER_ENTERED"]
     end.

(** The calls [fetch_with_playwright url headless] can make, in their
    order. *)
Definition playwright_calls (url : string) (headless : bool) : list Call :=
  [sync_playwright_enter; chromium_launch headless; browser_new_page;
   page_goto url; time_sleep 1; page_content; browser_close;
   sync_playwright_exit].

(** The calls of a run of [main] up to the static fetch, and those of
    the fallback. *)
Definition static_calls : list Call :=
  [load_dotenv; mkdir "logs"; logging_basicConfig "logs/scrape.log";
   logging_info "Starting scrape"; requests_get URL; time_sleep 1].

Definition fallback_calls (headless : bool) : list Call :=
  logging_info "Switching to Playwright scraping"
  :: playwright_calls URL headless.

(** What holds of every call of a run of [main] with the given headless
    flag: the fixed address, spreadsheet and tab, the flag as given, and
    appends of at least one row whose emails are not empty and pairwise
    different up to letter case. *)
Definition call_of_main (headless : bool) (c : Call) : Prop :=
  match c with
  | requests_get url | page_goto url => url = URL
  | chromium_launch h => h = headless
  | time_sleep seconds => seconds = 1
  | from_json_keyfile_name _ scope => scope = SCOPE
  | open_by_key key => key = SHEET_ID
  | worksheet title => title = SHEET_TAB
  | append_rows data value_input_option =>
      value_input_option = "USER_ENTERED" ∧
      ∃ rows, rows ≠ [] ∧ data = sheet_row <$> rows ∧
              NoDup (email_key <$> rows) ∧
              Forall (fun r => Email r ≠ "") rows
  | _ => True
  end.

Definition COMPLETED : Call := logging_info "Completed upload".



(** A world that answers the static fetch with the given status. *)
Definition status_world (status : Z) (static : string) : World :=
  {| raises := fun _ _ => false;
     response := fun _ => (status, static);
     rendered := markup_lines;
     environ := fun name =>
       if String.eqb name "GOOGLE_CREDS_JSON" then Some "creds.json" else None;
     path_exists := fun p => String.eqb p "creds.json";
     stat_error := fun _ => false |}.

(** * Properties *)

(** ** Strings *)

Lemma startswith_empty (s : string) : Str.startswith "" s = true.
Proof. by destruct s. Qed.

Lemma contains_empty (s : string) : Str.contains "" s = true.
Proof. destruct s; simpl; by rewrite ?startswith_empty. Qed.

Lemma lower_empty_iff (s : string) : Str.lower s = "" ↔ s = "".
Proof. destruct s; simpl; split; congruence. Qed.

Lemma email_key_nonempty (r : Entry) : email_key r ≠ "" ↔ Email r ≠ "".
Proof.
  unfold email_key. split; intros H Heq; apply H.
  - by rewrite Heq.
  - by apply lower_empty_iff.
Qed.

Lemma contains_cons_false (sub : string) (c : ascii) (s : string) :
  Str.contains sub (String c s) = false →
  Str.startswith sub (String c s) = false ∧ Str.contains sub s = false.
Proof.
  cbn [Str.contains]. destruct (Str.startswith sub (String c s)); [done|].
  by intros ->.
Qed.

Lemma replace_absent (old new s : string) :
  Str.contains old s = false → Str.replace old new s = s.
Proof.
  unfold Str.replace. induction s as [|c s IH]; [done|].
  intros [Hp Hc]%contains_cons_false.
  cbn [Str.replace_from]. rewrite Hp. by rewrite IH.
Qed.

Lemma replace_mailto_prefix (rest : string) :
  Str.replace "mailto:" "" ("mailto:" +:+ rest) = Str.replace "mailto:" "" rest.
Proof. reflexivity. Qed.

(** ** [deduplicate] *)

Lemma fold_dedup_step (rows : list Entry) (seen : gset string)
  (unique : list Entry) :
  snd (fold_left dedup_step rows (seen, unique)) = unique ++ dedup_from seen rows.
Proof.
  revert seen unique. induction rows as [|r rows IH]; intros seen unique.
  - by rewrite app_nil_r.
  - cbn [fold_left dedup_from]. unfold dedup_step at 2.
    destruct (negb (String.eqb (email_key r) "") &&
              negb (bool_decide (email_key r ∈ seen))).
    + rewrite IH. by rewrite <- app_assoc.
    + apply IH.
Qed.

Lemma deduplicate_dedup_from (rows : list Entry) :
  deduplicate rows = dedup_from ∅ rows.
Proof. unfold deduplicate. by rewrite fold_dedup_step. Qed.

(** The test of the loop, as a proposition. *)
Lemma keep_test (key : string) (seen : gset string) :
  negb (String.eqb key "") && negb (bool_decide (key ∈ seen)) = true
  ↔ key ≠ "" ∧ key ∉ seen.
Proof.
  rewrite andb_true_iff, !negb_true_iff, bool_decide_eq_false.
  by rewrite String.eqb_neq.
Qed.

Lemma dedup_from_sublist (seen : gset string) (rows : list Entry) :
  sublist (dedup_from seen rows) rows.
Proof.
  revert seen. induction rows as [|r rows IH]; intros seen; [done|].
  cbn [dedup_from]. case_match.
  - by apply sublist_skip.
  - by apply sublist_cons.
Qed.

Lemma dedup_from_fresh (seen : gset string) (rows : list Entry) (r : Entry) :
  r ∈ dedup_from seen rows → email_key r ≠ "" ∧ email_key r ∉ seen.
Proof.
  revert seen. induction rows as [|r0 rows IH]; intros seen; cbn [dedup_from].
  - by intros ?%elem_of_nil.
  - case_match eqn:Hk.
    + apply keep_test in Hk as [Hne Hns].
      intros [->|Hin]%elem_of_cons; [done|].
      destruct (IH _ Hin) as [? ?]. split; [done|set_solver].
    + apply IH.
Qed.

Lemma dedup_from_NoDup (seen : gset string) (rows : list Entry) :
  NoDup (email_key <$> dedup_from seen rows).
Proof.
  revert seen. induction rows as [|r rows IH]; intros seen; cbn [dedup_from].
  - constructor.
  - case_match; [|apply IH].
    rewrite fmap_cons. constructor; [|apply IH].
    intros (r' & Heq & Hin)%list_elem_of_fmap.
    apply dedup_from_fresh in Hin as [_ Hns]. set_solver.
Qed.

Lemma dedup_from_covers (seen : gset string) (rows : list Entry) (r : Entry) :
  r ∈ rows → email_key r ≠ "" → email_key r ∉ seen →
  ∃ r', r' ∈ dedup_from seen rows ∧ email_key r' = email_key r.
Proof.
  revert seen. induction rows as [|r0 rows IH]; intros seen Hin Hne Hns.
  - by apply elem_of_nil in Hin.
  - cbn [dedup_from]. case_match eqn:Hk.
    + destruct (decide (email_key r0 = email_key r)) as [Heq|Hneq].
      * exists r0. split; [left|done].
      * assert (r ∈ rows) as Hin' by (by apply elem_of_cons in Hin as [->|?]).
        destruct (IH ({[email_key r0]} ∪ seen) Hin' Hne) as (r' & ? & ?);
          [set_solver|].
        exists r'. split; [by right|done].
    + apply elem_of_cons in Hin as [->|Hin].
      * exfalso. apply not_true_iff_false in Hk. apply Hk, keep_test. done.
      * by apply IH.
Qed.

Lemma dedup_from_idempotent (seen : gset string) (rows : list Entry) :
  dedup_from seen (dedup_from seen rows) = dedup_from seen rows.
Proof.
  revert seen. induction rows as [|r rows IH]; intros seen; [done|].
  cbn [dedup_from]. case_match eqn:Hk; [|apply IH].
  cbn [dedup_from]. rewrite Hk. by rewrite IH.
Qed.


Lemma retained_middle (pre : list Entry) (r : Entry) (rows : list Entry) :
  retained (pre ++ r :: rows) (List.length pre) =
  if bool_decide (Email r ≠ "" ∧
                  Forall (fun r' => email_key r' ≠ email_key r) pre)
  then Some r else None.
Proof.
  unfold retained. rewrite list_lookup_middle by done.
  by rewrite take_app_length.
Qed.

Lemma keep_test_retained (seen : gset string) (pre : list Entry) (r : Entry) :
  seen_of seen pre →
  negb (String.eqb (email_key r) "") && negb (bool_decide (email_key r ∈ seen))
  = bool_decide (Email r ≠ "" ∧
                 Forall (fun r' => email_key r' ≠ email_key r) pre).
Proof.
  intros Hseen. apply eq_true_iff_eq.
  rewrite keep_test, bool_decide_eq_true, Forall_forall.
  pose proof (email_key_nonempty r) as Hkey.
  split.
  - intros [Hne Hns]. split; [tauto|]. intros r' Hr' Heq.
    apply Hns, Hseen; [done|].
    apply list_elem_of_fmap. by exists r'.
  - intros [Hne Hall]. split; [tauto|]. intros Hin.
    apply Hseen in Hin; [|tauto].
    apply list_elem_of_fmap in Hin as (r' & Heq & Hr').
    by apply (Hall r').
Qed.

Lemma seen_of_snoc (seen : gset string) (pre : list Entry) (r : Entry) :
  seen_of seen pre →
  seen_of (if negb (String.eqb (email_key r) "") &&
              negb (bool_decide (email_key r ∈ seen))
           then {[email_key r]} ∪ seen else seen) (pre ++ [r]).
Proof.
  intros Hseen k Hk. specialize (Hseen k Hk).
  assert (k ∈ email_key <$> pre ++ [r] ↔ k ∈ email_key <$> pre ∨ k = email_key r)
    as ->.
  { rewrite fmap_app, elem_of_app. cbn [fmap list_fmap].
    by rewrite list_elem_of_singleton. }
  destruct (negb (String.eqb (email_key r) "") &&
            negb (bool_decide (email_key r ∈ seen))) eqn:Htest.
  - set_solver.
  - apply not_true_iff_false in Htest. rewrite keep_test in Htest.
    split; [tauto|]. intros [?| ->]; [tauto|].
    destruct (decide (email_key r ∈ seen)); [done|]. exfalso. tauto.
Qed.

Lemma dedup_from_retained (rows pre : list Entry) (seen : gset string) :
  seen_of seen pre →
  dedup_from seen rows =
  omap (retained (pre ++ rows)) (seq (List.length pre) (List.length rows)).
Proof.
  revert pre seen. induction rows as [|r rows IH]; intros pre seen Hseen; [done|].
  cbn [dedup_from List.length seq omap list_omap].
  rewrite retained_middle, (keep_test_retained seen pre r Hseen).
  pose proof (seen_of_snoc seen pre r Hseen) as Hsnoc.
  rewrite (keep_test_retained seen pre r Hseen) in Hsnoc.
  specialize (IH (pre ++ [r]) _ Hsnoc).
  rewrite <- app_assoc, length_app in IH. cbn [app List.length] in IH.
  rewrite Nat.add_1_r in IH.
  case_bool_decide; by rewrite IH.
Qed.

(** C5.  For every sequence of entries, [deduplicate] returns the entries
    that are the first occurrence of a non-empty email, compared up to letter
    case, in the order of the input: the output is the list of the
    positions that the specification retains; it is a subsequence of the
    input, no two of its entries have the same lower-cased email, none has
    an empty email, and every non-empty email of the input is the email, up
    to letter case, of an entry of the output. *)
Theorem deduplicate_first_occurrences (rows : list Entry) :
  deduplicate rows = first_occurrences rows ∧
  sublist (deduplicate rows) rows ∧
  NoDup (email_key <$> deduplicate rows) ∧
  (∀ r, r ∈ deduplicate rows → Email r ≠ "") ∧
  (∀ r, r ∈ rows → Email r ≠ "" →
        ∃ r', r' ∈ deduplicate rows ∧ email_key r' = email_key r).
Proof.
  rewrite deduplicate_dedup_from. repeat split.
  - apply (dedup_from_retained rows [] ∅). intros k _. set_solver.
  - apply dedup_from_sublist.
  - apply dedup_from_NoDup.
  - intros r [Hne _]%dedup_from_fresh. by apply email_key_nonempty.
  - intros r Hin Hne. apply dedup_from_covers; [done| |set_solver].
    by apply email_key_nonempty.
Qed.

(** Scenario B: the second spelling of the email is dropped, the first
    entry's fields are kept. *)
Lemma scenario_B_witness :
  ∃ r', r' ∈ deduplicate [jane; anonymous; bob; jane_again; bob]
        ∧ email_key r' = email_key jane_again.
Proof.
  apply (proj2 (proj2 (proj2 (proj2
    (deduplicate_first_occurrences [jane; anonymous; bob; jane_again; bob]))))).
  - do 3 right. left.
  - discriminate.
Defined.

(** C6.  The output of [deduplicate] is never longer than its input, and
    [deduplicate] is idempotent. *)
Theorem deduplicate_length_idempotent (x : list Entry) :
  (List.length (deduplicate x) ≤ List.length x)%nat ∧
  deduplicate (deduplicate x) = deduplicate x.
Proof.
  split.
  - rewrite deduplicate_dedup_from. apply sublist_length, dedup_from_sublist.
  - rewrite !deduplicate_dedup_from. apply dedup_from_idempotent.
Qed.

Example deduplicate_scenario_B :
  deduplicate [jane; anonymous; bob; jane_again; bob] = [jane; bob].
Proof. vm_compute. reflexivity. Qed.

(** ** [parse_entries] *)

Lemma fold_parse_step (l : list Bs4.Located) (acc : list Entry) :
  fold_left parse_step l acc = acc ++ omap entry_of_link l.
Proof.
  revert acc. induction l as [|m l IH]; intros acc; cbn [fold_left omap list_omap].
  - by rewrite app_nil_r.
  - rewrite IH. unfold parse_step. destruct (entry_of_link m); [|done].
    by rewrite <- app_assoc.
Qed.

(** The entries are those of the links that are not skipped, in document
    order. *)
Lemma parse_entries_omap (BeautifulSoup : string → Bs4.PageElement)
  (html : string) :
  parse_entries BeautifulSoup html =
  omap entry_of_link (Bs4.select_mailto (BeautifulSoup html)).
Proof. unfold parse_entries. by rewrite fold_parse_step. Qed.

Lemma entry_of_link_Some (m : Bs4.Located) (e : Entry) :
  entry_of_link m = Some e →
  email_of (Bs4.elem m) ≠ "" ∧
  e = entry_of_text (Bs4.get_text SEPARATOR (block_of m)) (email_of (Bs4.elem m)).
Proof.
  unfold entry_of_link.
  destruct (String.eqb (email_of (Bs4.elem m)) "") eqn:Hemail; [done|].
  apply String.eqb_neq in Hemail. by intros [= <-].
Qed.

(** The emails of the entries are the non-empty results of
    [replace("mailto:", "").strip()] on the links' [href]. *)
Lemma parse_entries_emails (BeautifulSoup : string → Bs4.PageElement)
  (html : string) :
  Email <$> parse_entries BeautifulSoup html =
  List.filter (fun email => negb (String.eqb email ""))
    ((fun m => email_of (Bs4.elem m)) <$> Bs4.select_mailto (BeautifulSoup html)).
Proof.
  rewrite parse_entries_omap.
  induction (Bs4.select_mailto (BeautifulSoup html)) as [|m l IH]; [done|].
  cbn [omap list_omap fmap list_fmap List.filter]. unfold entry_of_link at 1.
  destruct (String.eqb (email_of (Bs4.elem m)) ""); cbn [negb]; [done|].
  cbn [fmap list_fmap] in *. by rewrite IH.
Qed.

Lemma substring_all (s : string) : substring 0 (String.length s) s = s.
Proof. induction s as [|c s IH]; [done|]. cbn. by rewrite IH. Qed.

Lemma removeprefix_mailto_prefix (rest : string) :
  removeprefix_mailto ("mailto:" +:+ rest) = rest.
Proof.
  unfold removeprefix_mailto. simpl.
  rewrite Nat.sub_0_r. apply substring_all.
Qed.

(** When [mailto:] does not occur again after the scheme, the email is the
    address the link targets. *)
Lemma email_of_target (mailto : Bs4.PageElement) (rest : string) :
  Bs4.get mailto "href" "" = "mailto:" +:+ rest →
  Str.contains "mailto:" rest = false →
  email_of mailto = target_address ("mailto:" +:+ rest).
Proof.
  intros Hhref Habsent. unfold email_of, target_address.
  rewrite Hhref, replace_mailto_prefix, replace_absent by done.
  by rewrite removeprefix_mailto_prefix.
Qed.

Lemma filter_all_false {A} (p : A → bool) (l : list A) :
  (∀ x, p x = false) → List.filter p l = [].
Proof.
  intros Hp. induction l as [|x l IH]; [done|].
  cbn [List.filter]. by rewrite Hp.
Qed.

(** With the empty string for the phone, [phone not in t] is false for
    every line: no line is left. *)
Lemma lines_of_no_phone (text email : string) : lines_of text email "" = [].
Proof.
  apply filter_all_false. intros t. rewrite contains_empty.
  by rewrite andb_false_r.
Qed.

(** With a matched phone the lines are those of the specification. *)
Lemma lines_of_phone (text email phone : string) :
  lines_of text email phone = remaining_lines text email (Some phone).
Proof. reflexivity. Qed.

(** C1, as the code has it.  On the markup of scenario A the tree has one
    list item holding the link and one text node; the only line besides the
    email's holds the phone, so it is removed with it: the parser returns
    exactly one entry, with Email "jane@ex.com", Phone "(705) 555-1234", and
    an empty Name and Brokerage. *)
Theorem scenario_A_entry :
  Bs4.html_parser markup_A =
    Bs4.Tag "[document]" []
      [Bs4.Tag "li" []
         [Bs4.Tag "a" [("href", "mailto:jane@ex.com")]
            [Bs4.NavigableString "jane@ex.com"];
          Bs4.NavigableString " Jane Doe ABC Realty (705) 555-1234"]] ∧
  parse_entries Bs4.html_parser markup_A =
    [mkEntry "" "" "jane@ex.com" "(705) 555-1234"].
Proof. split; vm_compute; reflexivity. Qed.

(** C1, as stated, fails: the entry of scenario A is not the one with Name
    "Jane Doe" and Brokerage "ABC Realty". *)
Lemma scenario_A_not_as_stated :
  parse_entries Bs4.html_parser markup_A ≠
    [mkEntry "Jane Doe" "ABC Realty" "jane@ex.com" "(705) 555-1234"].
Proof. vm_compute. discriminate. Qed.

(** C2 at a block without a phone.  The block's text has three lines, the
    email's and two more, and no phone pattern matches; the specification
    keeps the two lines, which would be Name and Brokerage, but the parser
    returns the entry with an empty Name and Brokerage. *)
Theorem no_phone_block_loses_name :
  let text := Bs4.get_text SEPARATOR (Bs4.html_parser markup_no_phone) in
  Re.search Re.phone_pattern text = None ∧
  remaining_lines text "jane@ex.com" None = ["Jane Doe "; "ABC Realty"] ∧
  lines_of text "jane@ex.com" (phone_of text) = [] ∧
  parse_entries Bs4.html_parser markup_no_phone =
    [mkEntry "" "" "jane@ex.com" ""].
Proof. repeat split; vm_compute; reflexivity. Qed.

(** The same block with a phone on a line of its own: the parser does what
    the specification says. *)
Example phone_block_keeps_name :
  parse_entries Bs4.html_parser markup_lines =
    [mkEntry "Jane Doe " "ABC Realty " "jane@ex.com" "(705) 555-1234"].
Proof. vm_compute. reflexivity. Qed.

(** C7 at a link whose subject contains [mailto:] again.  The address the
    link targets is everything after the scheme; the parser removes the
    second [mailto:] as well. *)
Theorem mailto_in_subject_is_cut :
  target_address "mailto:a@b.com?subject=mailto:x" = "a@b.com?subject=mailto:x" ∧
  parse_entries Bs4.html_parser markup_subject =
    [mkEntry "" "" "a@b.com?subject=x" ""].
Proof. split; vm_compute; reflexivity. Qed.

(** C10.  Every entry of [parse_entries] whose Phone is empty has an empty
    Name and an empty Brokerage, for every markup and every tree the
    builder makes of it. *)
Theorem empty_phone_empty_name (BeautifulSoup : string → Bs4.PageElement)
  (html : string) (e : Entry) :
  e ∈ parse_entries BeautifulSoup html →
  Phone e = "" →
  Name e = "" ∧ Brokerage e = "".
Proof.
  rewrite parse_entries_omap.
  intros (m & _ & [_ ->]%entry_of_link_Some)%list_elem_of_omap.
  unfold entry_of_text. cbn [Phone Name Brokerage]. intros ->.
  by rewrite lines_of_no_phone.
Qed.

Lemma no_phone_entry_witness :
  Name (mkEntry "" "" "jane@ex.com" "") = "" ∧
  Brokerage (mkEntry "" "" "jane@ex.com" "") = "".
Proof.
  apply (empty_phone_empty_name Bs4.html_parser markup_no_phone).
  - apply list_elem_of_In. vm_compute. left. reflexivity.
  - reflexivity.
Defined.

(** ** The effectful functions *)

Lemma trace_effect (c : Call) (st : State) : trace (effect c st) = trace st.
Proof. by destruct c. Qed.

Lemma rendered_fetches_snoc (t : list Call) (c : Call) :
  rendered_fetches (t ++ [c]) =
  rendered_fetches t + (if bool_decide (c = sync_playwright_enter) then 1 else 0).
Proof.
  unfold rendered_fetches. rewrite List.filter_app, length_app.
  cbn [List.filter]. by case_bool_decide.
Qed.

Lemma rendered_fetches_other (t : list Call) (c : Call) :
  c ≠ sync_playwright_enter → rendered_fetches (t ++ [c]) = rendered_fetches t.
Proof.
  intros Hc. rewrite rendered_fetches_snoc, bool_decide_eq_false_2 by done. lia.
Qed.

Lemma adds_ret {A} (a : A) : adds 0 (ret a).
Proof. intros w st. cbn. lia. Qed.

Lemma adds_raise {A} (e : Exception) : adds 0 (raise (A:=A) e).
Proof. intros w st. cbn. lia. Qed.

Lemma adds_read {A} (f : World → A) : adds 0 (fun w st => (st, Ok (f w))).
Proof. intros w st. cbn. lia. Qed.

Lemma adds_call (c : Call) : c ≠ sync_playwright_enter → adds 0 (call c).
Proof.
  intros Hc w st. unfold call. destruct (raises w (trace st) c); cbn [fst].
  - cbn [record trace]. rewrite rendered_fetches_other by done. lia.
  - rewrite trace_effect. cbn [record trace].
    rewrite rendered_fetches_other by done. lia.
Qed.

Lemma adds_emit (c : Call) : c ≠ sync_playwright_enter → adds 0 (emit c).
Proof.
  intros Hc w st. unfold emit. cbn [fst]. rewrite trace_effect.
  cbn [record trace]. rewrite rendered_fetches_other by done. lia.
Qed.

Lemma adds_bind {A B} (n : nat) (m : M A) (f : A → M B) :
  adds n m → (∀ a, adds 0 (f a)) → adds n (bind m f).
Proof.
  intros Hm Hf w st. unfold bind. specialize (Hm w st).
  destruct (m w st) as [st' [a|e]]; cbn [fst] in *; [|done].
  rewrite Hf. lia.
Qed.

(** After a call that cannot raise, what follows is always run. *)
Lemma adds_emit_then {B} (n : nat) (c : Call) (m : M B) :
  c ≠ sync_playwright_enter → adds n m → adds n (emit c ;;; m).
Proof.
  intros Hc Hm w st. unfold bind, emit. rewrite Hm, trace_effect.
  cbn [record trace]. by rewrite rendered_fetches_other.
Qed.

Lemma adds_Path_exists (p : string) : adds 0 (Path_exists p).
Proof.
  intros w st. unfold Path_exists. destruct (stat_error w p); cbn; lia.
Qed.

(** Goals [adds 0 m] for a computation made of calls other than the entry
    into the [sync_playwright] context. *)
Ltac adds_zero :=
  repeat first
    [ apply adds_ret | apply adds_raise | apply adds_read
    | apply adds_Path_exists
    | apply adds_call; discriminate | apply adds_emit; discriminate
    | apply adds_bind; [|intros ?]
    | match goal with
      | |- adds _ (match ?x with _ => _ end) => destruct x
      | |- adds _ (let '(_, _) := ?x in _) => destruct x
      end ].

Lemma adds_fetch_with_requests (url : string) : adds 0 (fetch_with_requests url).
Proof. unfold fetch_with_requests, call_for. adds_zero. Qed.

Lemma adds_append_to_sheet (rows : list Entry) : adds 0 (append_to_sheet rows).
Proof. unfold append_to_sheet, os_environ_get. adds_zero. Qed.

(** A run of the rendered fetcher enters the context once. *)
Lemma adds_fetch_with_playwright (url : string) (headless : bool) :
  adds 1 (fetch_with_playwright url headless).
Proof.
  intros w st. unfold fetch_with_playwright, with_sync_playwright.
  unfold call at 1. destruct (raises w (trace st) sync_playwright_enter).
  - cbn [fst record trace]. by rewrite rendered_fetches_snoc.
  - match goal with
    | |- context [let '(_, _) := ?body w ?st1 in _] =>
        assert (adds 0 body) as Hbody by (unfold call_for; adds_zero);
        specialize (Hbody w st1); destruct (body w st1) as [st2 r]
    end.
    cbn [fst] in *. rewrite trace_effect in *. cbn [record trace] in *.
    rewrite rendered_fetches_other by done.
    rewrite Hbody, rendered_fetches_snoc. by rewrite bool_decide_eq_true_2.
Qed.

Lemma adds_static_phase : adds 0 static_phase.
Proof.
  unfold static_phase, setup_logging.
  repeat (apply adds_bind; [|intros ?]);
    first [apply adds_fetch_with_requests | adds_zero].
Qed.

Section MainProperties.

Variable BeautifulSoup : string → Bs4.PageElement.

Lemma adds_after_static (headless_arg : option string) (html : string) :
  adds (match parse_entries BeautifulSoup html with [] => 1 | _ => 0 end)
       (after_static BeautifulSoup headless_arg html).
Proof.
  unfold after_static.
  assert (∀ entries : list Entry,
    adds 0 (emit (logging_info
                    ("Parsed " +:+ pretty (List.length (deduplicate entries))
                     +:+ " unique rows")) ;;;
            append_to_sheet (deduplicate entries) ;;;
            emit (logging_info "Completed upload"))) as Hrest.
  { intros entries. apply adds_bind; [apply adds_emit; discriminate|intros _].
    apply adds_bind; [apply adds_append_to_sheet|intros _].
    apply adds_emit; discriminate. }
  destruct (parse_entries BeautifulSoup html).
  - apply adds_bind; [|apply Hrest].
    apply adds_emit_then; [done|].
    apply adds_bind; [apply adds_fetch_with_playwright|intros ?; apply adds_ret].
  - apply adds_bind; [apply adds_ret|apply Hrest].
Qed.

(** [main] is its static phase followed by the rest. *)
Lemma main_after_static (headless_arg : option string) (w : World) (st : State) :
  main BeautifulSoup headless_arg w st =
  bind static_phase (after_static BeautifulSoup headless_arg) w st.
Proof.
  unfold main, static_phase, after_static, bind.
  destruct (call load_dotenv w st) as [st1 [[]|e]]; [|done].
  destruct (setup_logging w st1) as [st2 [[]|e]]; [|done].
  destruct (emit (logging_info "Starting scrape") w st2) as [st3 [[]|e]]; [|done].
  by destruct (fetch_with_requests URL w st3) as [st4 [html|e]].
Qed.

(** C4.  On every run of [main] in which the static fetch returns a page
    [html], the rendered fetch is invoked exactly once if [parse_entries]
    finds no entry in [html], and never if it finds one or more. *)
Theorem rendered_fetch_iff_no_static_entry (headless_arg : option string)
  (w : World) (st1 : State) (html : string) :
  static_phase w initial = (st1, Ok html) →
  rendered_fetches (trace (fst (main BeautifulSoup headless_arg w initial))) =
  match parse_entries BeautifulSoup html with [] => 1 | _ => 0 end.
Proof.
  intros Hstatic. rewrite main_after_static. unfold bind. rewrite Hstatic.
  rewrite adds_after_static.
  pose proof (adds_static_phase w initial) as Hzero.
  rewrite Hstatic in Hzero. cbn in Hzero. lia.
Qed.

End MainProperties.

(** Scenario C: a static page without links, then the rendered page. *)
Lemma scenario_C_witness :
  rendered_fetches
    (trace (fst (main Bs4.html_parser None
                   (quiet_world markup_empty markup_lines) initial))) = 1.
Proof.
  eapply (rendered_fetch_iff_no_static_entry Bs4.html_parser None
            (quiet_world markup_empty markup_lines) _ markup_empty).
  vm_compute. reflexivity.
Defined.

Example static_entries_no_rendered_fetch :
  rendered_fetches
    (trace (fst (main Bs4.html_parser None
                   (quiet_world markup_A markup_lines) initial))) = 0.
Proof. vm_compute. reflexivity. Qed.

(** C8, as stated, fails: the variable names a file that is not there, in
    a directory that may not be searched; the look-up raises its own error
    and the uploader fails with it, not with the [RuntimeError] of the
    missing credentials. *)
Lemma unsearchable_path_not_runtime_error :
  (∃ p, environ unsearchable_world "GOOGLE_CREDS_JSON" = Some p ∧
        path_exists unsearchable_world p = false) ∧
  append_to_sheet [jane] unsearchable_world initial
  ≠ (initial, Raise (RuntimeError MISSING_CREDS)).
Proof.
  split.
  - exists "/root/creds.json". split; reflexivity.
  - vm_compute. discriminate.
Qed.

(** C8, as the code has it.  When the credential variable is missing from
    the environment, or the file it names does not exist, [append_to_sheet]
    fails and the state is the one it started from: no call at all was
    made before, so none to the spreadsheet service.  It fails with the
    [RuntimeError] of the missing credentials, unless the variable names a
    path whose look-up raises an error of its own, which is then the
    failure. *)
Theorem missing_credentials_fail (rows : list Entry) (w : World) (st : State) :
  environ w "GOOGLE_CREDS_JSON" = None ∨
  (∃ p, environ w "GOOGLE_CREDS_JSON" = Some p ∧ path_exists w p = false) →
  (append_to_sheet rows w st = (st, Raise (RuntimeError MISSING_CREDS)) ∧
   ∀ p, environ w "GOOGLE_CREDS_JSON" = Some p → p ≠ "" →
        stat_error w p = false)
  ∨ (∃ p, environ w "GOOGLE_CREDS_JSON" = Some p ∧ p ≠ "" ∧
          stat_error w p = true ∧
          append_to_sheet rows w st = (st, Raise (OSError p))).
Proof.
  unfold append_to_sheet, bind, os_environ_get, Path_exists, raise.
  intros [Hnone | (p & Hsome & Hp)].
  - left. rewrite Hnone. split; [done|]. by intros p [=].
  - rewrite Hsome. destruct (String.eqb_spec p "") as [->|Hne].
    + left. split; [done|]. by intros p [= <-].
    + destruct (stat_error w p) eqn:Hstat.
      * right. by exists p.
      * left. rewrite Hp. split; [done|]. by intros p' [= <-].
Qed.

(** Scenario D: no credential variable. *)
Lemma scenario_D_witness :
  (append_to_sheet [jane] (no_creds_world markup_A markup_A) initial
   = (initial, Raise (RuntimeError MISSING_CREDS)) ∧
   ∀ p, environ (no_creds_world markup_A markup_A) "GOOGLE_CREDS_JSON" = Some p →
        p ≠ "" → stat_error (no_creds_world markup_A markup_A) p = false)
  ∨ (∃ p, environ (no_creds_world markup_A markup_A) "GOOGLE_CREDS_JSON" = Some p ∧
          p ≠ "" ∧ stat_error (no_creds_world markup_A markup_A) p = true ∧
          append_to_sheet [jane] (no_creds_world markup_A markup_A) initial
          = (initial, Raise (OSError p))).
Proof.
  apply (missing_credentials_fail [jane] (no_creds_world markup_A markup_A)).
  left. reflexivity.
Defined.

(** C3, as stated, fails: with the credentials in place, the uploader
    called with no rows does call the spreadsheet service. *)
Lemma empty_rows_call_the_service :
  sheet_calls
    (trace (fst (append_to_sheet [] (quiet_world markup_A markup_A) initial)))
  ≠ [].
Proof. vm_compute. discriminate. Qed.

(** C3, as the code has it.  Called with no rows, [append_to_sheet] makes
    no append call, whatever the world answers; when it returns, it has
    authenticated and opened the spreadsheet and its tab, and these are all
    its calls to the spreadsheet service. *)
Theorem empty_rows_skip_the_append_only (w : World) :
  let '(st, res) := append_to_sheet [] w initial in
  Forall (fun c => is_append c = false) (trace st) ∧
  (res = Ok tt →
   sheet_calls (trace st) =
     [gspread_authorize; open_by_key SHEET_ID; worksheet SHEET_TAB]).
Proof.
  unfold append_to_sheet, bind, os_environ_get, Path_exists, raise, ret, call.
  cbn [List.map].
  destruct (environ w "GOOGLE_CREDS_JSON") as [p|]; [|by split].
  destruct (String.eqb p ""); [by split|].
  destruct (stat_error w p); [by split|].
  destruct (path_exists w p); cbn [negb]; [|by split].
  repeat match goal with
         | |- context [raises w ?t ?c] => destruct (raises w t c); cbn
         end;
    (split; [repeat constructor | done]).
Qed.

Lemma quiet_upload_witness :
  sheet_calls
    (trace (fst (append_to_sheet [] (quiet_world markup_A markup_A) initial)))
  = [gspread_authorize; open_by_key SHEET_ID; worksheet SHEET_TAB].
Proof.
  pose proof (empty_rows_skip_the_append_only (quiet_world markup_A markup_A))
    as H.
  destruct (append_to_sheet [] (quiet_world markup_A markup_A) initial)
    as [st res] eqn:Hrun.
  vm_compute in Hrun. injection Hrun as <- <-.
  apply H. reflexivity.
Defined.

(** C9.  On every call of [fetch_with_playwright], once the function has
    returned or raised, the Playwright driver is stopped and no browser is
    left open; unless the context could not be entered at all, the last
    call is the one that leaves it.  This holds whichever of the calls
    raises, navigation included. *)
Theorem browser_session_released (url : string) (headless : bool) (w : World)
  (t : list Call) :
  let '(st, res) :=
    fetch_with_playwright url headless w (mkState t false false) in
  playwright_running st = false ∧
  browser_open st = false ∧
  (res = Raise (Raised sync_playwright_enter) ∧
   trace st = t ++ [sync_playwright_enter]
   ∨ last (trace st) = Some sync_playwright_exit).
Proof.
  unfold fetch_with_playwright, with_sync_playwright. unfold call at 1.
  cbn [trace].
  destruct (raises w t sync_playwright_enter).
  - cbn. auto.
  - match goal with
    | |- context [let '(_, _) := ?body w ?st1 in _] =>
        destruct (body w st1) as [st2 r]
    end.
    cbn. repeat split. right. apply last_snoc.
Qed.

(** When navigation fails, [browser.close()] is not reached: the browser
    that was launched goes down with the context. *)
Example navigation_failure_trace :
  fetch_with_playwright URL true goto_fails_world initial =
  ({| trace := [sync_playwright_enter; chromium_launch true; browser_new_page;
                page_goto URL; sync_playwright_exit];
      playwright_running := false;
      browser_open := false |},
   Raise (Raised (page_goto URL))).
Proof. vm_compute. reflexivity. Qed.

(** * Further properties of the code *)

(** ** The phone pattern *)

Lemma append_nil (b : string) : "" +:+ b = b.
Proof. reflexivity. Qed.

Lemma append_cons (x : ascii) (a b : string) :
  String x a +:+ b = String x (a +:+ b).
Proof. reflexivity. Qed.

Lemma append_assoc (a b c : string) : (a +:+ b) +:+ c = a +:+ (b +:+ c).
Proof.
  induction a as [|x a IH]; [done|]. rewrite !append_cons. by f_equal.
Qed.

Lemma append_empty_r (a : string) : a +:+ "" = a.
Proof. induction a as [|x a IH]; [done|]. rewrite append_cons. by f_equal. Qed.

Lemma length_append (a b : string) :
  String.length (a +:+ b) = String.length a + String.length b.
Proof.
  induction a as [|x a IH]; [done|].
  rewrite append_cons. cbn [String.length]. by rewrite IH.
Qed.

Lemma substring_prefix (m rest : string) :
  substring 0 (String.length (m +:+ rest) - String.length rest) (m +:+ rest) = m.
Proof.
  rewrite length_append, Nat.add_sub.
  induction m as [|x m IH].
  - by destruct rest.
  - rewrite append_cons. cbn [String.length substring]. by f_equal.
Qed.

(** The matcher finds only texts of the language. *)
Lemma match_k_sound (r : Re.regex) (s : string) (k : string → option string)
  (rest : string) :
  Re.match_k r s k = Some rest →
  ∃ m s1, s = m +:+ s1 ∧ lang r m ∧ k s1 = Some rest.
Proof.
  revert s k. induction r as [p|r1 IH1 r2 IH2|r1 IH1]; intros s k; cbn [Re.match_k].
  - destruct s as [|c s']; [done|]. destruct (p c) eqn:Hp; [|done].
    intros Hk. exists (String c ""), s'. cbn. eauto.
  - intros (m1 & s1 & -> & Hm1 & (m2 & s2 & -> & Hm2 & Hk)%IH2)%IH1.
    exists (m1 +:+ m2), s2. rewrite append_assoc. cbn. eauto 10.
  - destruct (Re.match_k r1 s k) as [rest'|] eqn:Hr1.
    + intros [= ->]. apply IH1 in Hr1 as (m & s1 & -> & Hm & Hk).
      exists m, s1. cbn. auto.
    + intros Hk. exists "", s. cbn. auto.
Qed.

(** The matcher misses no text of the language: backtracking tries every
    way of matching. *)
Lemma match_k_complete (r : Re.regex) (s : string) (k : string → option string) :
  Re.match_k r s k = None →
  ∀ m s1, s = m +:+ s1 → lang r m → k s1 = None.
Proof.
  revert s k. induction r as [p|r1 IH1 r2 IH2|r1 IH1]; intros s k; cbn [Re.match_k lang].
  - intros Hnone m s1 -> (c & -> & Hp). rewrite append_cons in Hnone.
    by rewrite Hp in Hnone.
  - intros Hnone m s1 -> (m1 & m2 & -> & Hm1 & Hm2).
    rewrite append_assoc in Hnone.
    pose proof (IH1 _ _ Hnone m1 (m2 +:+ s1) eq_refl Hm1) as Hr2.
    exact (IH2 _ _ Hr2 m2 s1 eq_refl Hm2).
  - destruct (Re.match_k r1 s k) eqn:Hr1; [done|].
    intros Hk m s1 -> [->|Hm]; [done|].
    by apply (IH1 _ _ Hr1 m s1).
Qed.

Lemma match_at_Some (r : Re.regex) (s m : string) :
  Re.match_at r s = Some m → ∃ rest, s = m +:+ rest ∧ lang r m.
Proof.
  unfold Re.match_at. destruct (Re.match_k r s Some) as [rest|] eqn:Hk; [|done].
  apply match_k_sound in Hk as (m' & s1 & -> & Hm & [= ->]).
  rewrite substring_prefix. intros [= <-]. eauto.
Qed.

Lemma match_at_None (r : Re.regex) (s : string) :
  Re.match_at r s = None → ∀ m rest, s = m +:+ rest → ¬ lang r m.
Proof.
  unfold Re.match_at. destruct (Re.match_k r s Some) as [rest|] eqn:Hk; [done|].
  intros _ m rest Hs Hm. by pose proof (match_k_complete _ _ _ Hk m rest Hs Hm).
Qed.

(** What [re.search] returns is a part of the text that the pattern
    matches, and no match starts before it. *)
Lemma search_leftmost_match (r : Re.regex) (s m : string) :
  Re.search r s = Some m →
  ∃ a b, s = a +:+ m +:+ b ∧ lang r m ∧
         ∀ a1 a2 m' b', a = a1 +:+ a2 → a2 ≠ "" →
                        a2 +:+ m +:+ b = m' +:+ b' → ¬ lang r m'.
Proof.
  induction s as [|c s IH]; cbn [Re.search].
  - destruct (Re.match_at r "") as [m0|] eqn:Hat; [|done].
    intros [= ->]. apply match_at_Some in Hat as (rest & Hs & Hm).
    exists "", rest. split; [done|]. split; [done|].
    intros a1 a2 m' b' Ha. destruct a1, a2; [done|by rewrite ?append_cons in Ha..].
  - destruct (Re.match_at r (String c s)) as [m0|] eqn:Hat.
    + intros [= ->]. apply match_at_Some in Hat as (rest & Hs & Hm).
      exists "", rest. split; [done|]. split; [done|].
      intros a1 a2 m' b' Ha. destruct a1, a2; [done|by rewrite ?append_cons in Ha..].
    + intros (a & b & -> & Hm & Hleft)%IH.
      exists (String c a), b. split; [done|]. split; [done|].
      intros a1 a2 m' b' Ha Hne Heq.
      destruct a1 as [|c1 a1].
      * rewrite append_nil in Ha. subst a2. rewrite append_cons in Heq.
        by apply (match_at_None _ _ Hat m' b').
      * rewrite append_cons in Ha. injection Ha as <- ->.
        by apply (Hleft a1 a2 m' b').
Qed.

Lemma two_phones_witness :
  ∃ a b, "tel (705) 555-1234 fax 705.555.9999"
         = a +:+ "(705) 555-1234" +:+ b ∧
         lang Re.phone_pattern "(705) 555-1234" ∧
         ∀ a1 a2 m' b', a = a1 +:+ a2 → a2 ≠ "" →
                        a2 +:+ "(705) 555-1234" +:+ b = m' +:+ b' →
                        ¬ lang Re.phone_pattern m'.
Proof.
  apply (search_leftmost_match Re.phone_pattern
           "tel (705) 555-1234 fax 705.555.9999" "(705) 555-1234").
  vm_compute. reflexivity.
Defined.

(** [re.search] finds nothing exactly when no part of the text is
    matched by the pattern. *)
Lemma search_None_iff (r : Re.regex) (s : string) :
  Re.search r s = None ↔ ∀ a m b, s = a +:+ m +:+ b → ¬ lang r m.
Proof.
  split.
  - induction s as [|c s IH]; cbn [Re.search].
    + destruct (Re.match_at r "") eqn:Hat; [done|]. intros _ a m b Hs.
      destruct a; [|by rewrite append_cons in Hs].
      by apply (match_at_None _ _ Hat m b).
    + destruct (Re.match_at r (String c s)) eqn:Hat; [done|].
      intros Hnone a m b Hs. destruct a as [|c' a].
      * by apply (match_at_None _ _ Hat m b).
      * rewrite append_cons in Hs. injection Hs as <- ->.
        by apply (IH Hnone a m b).
  - intros Hfree. destruct (Re.search r s) as [m|] eqn:Hs; [|done].
    apply search_leftmost_match in Hs as (a & b & -> & Hm & _).
    by destruct (Hfree a m b).
Qed.

Lemma sep_not_digit (c : ascii) :
  Ascii.eqb c "-" || Ascii.eqb c "." || Str.isspace c = true →
  Str.isdigit c = false.
Proof.
  destruct c as [[] [] [] [] [] [] [] []]; vm_compute; congruence.
Qed.

(** A text matched by the phone pattern has exactly ten digits and
    between ten and fourteen characters. *)
Lemma phone_pattern_ten_digits (m : string) :
  lang Re.phone_pattern m →
  count_chars Str.isdigit m = 10 ∧ (10 ≤ String.length m ≤ 14)%nat.
Proof.
  unfold Re.phone_pattern, Re.digits4, Re.digits3, Re.digit, Re.sep, Re.chr.
  cbn [lang]. intros H.
  repeat match goal with
         | H : ∃ _, _ |- _ => destruct H
         | H : _ ∧ _ |- _ => destruct H
         | H : _ ∨ _ |- _ => destruct H
         end; subst;
  repeat match goal with
         | H : Ascii.eqb _ _ = true |- _ => apply Ascii.eqb_eq in H; subst
         | H : _ || _ || _ = true |- _ => apply sep_not_digit in H
         end;
  cbv [String.append]; cbn [count_chars String.length];
  repeat match goal with
         | H : Str.isdigit _ = _ |- _ => rewrite H; clear H
         end;
  (split; [reflexivity|cbn; lia]).
Qed.

Lemma dashed_phone_witness :
  count_chars Str.isdigit "705-555-1234" = 10 ∧
  (10 ≤ String.length "705-555-1234" ≤ 14)%nat.
Proof.
  apply (phone_pattern_ten_digits "705-555-1234").
  destruct (match_at_Some Re.phone_pattern "705-555-1234" "705-555-1234")
    as (rest & Hrest & Hlang); [vm_compute; reflexivity|exact Hlang].
Defined.

(** ** The fields of an entry *)

Lemma lstrip_first (s : string) :
  match first_char (Str.lstrip s) with
  | Some c => Str.isspace c = false
  | None => Str.lstrip s = ""
  end.
Proof.
  induction s as [|c s IH]; [done|]. cbn [Str.lstrip].
  destruct (Str.isspace c) eqn:Hc; [done|]. by cbn.
Qed.

Lemma rstrip_first (c : ascii) (s : string) :
  Str.isspace c = false → first_char (Str.rstrip (String c s)) = Some c.
Proof.
  intros Hc. cbn [Str.rstrip]. destruct (Str.rstrip s); [|done].
  by rewrite Hc.
Qed.

Lemma rstrip_last (s : string) :
  match last_char (Str.rstrip s) with
  | Some c => Str.isspace c = false
  | None => Str.rstrip s = ""
  end.
Proof.
  induction s as [|c s IH]; [done|]. cbn [Str.rstrip].
  destruct (Str.rstrip s) as [|c' r].
  - destruct (Str.isspace c) eqn:Hc; [done|]. by cbn.
  - change (last_char (String c (String c' r))) with (last_char (String c' r)).
    by destruct (last_char (String c' r)).
Qed.

(** [strip] leaves the empty string or a text with no white space at
    either end. *)
Lemma strip_trimmed (s : string) : Str.strip s = "" ∨ trimmed (Str.strip s).
Proof.
  unfold Str.strip, trimmed.
  pose proof (lstrip_first s) as Hfirst.
  destruct (Str.lstrip s) as [|c1 l] eqn:Hl; [by left|]. cbn in Hfirst.
  right. pose proof (rstrip_first c1 l Hfirst) as Hf.
  pose proof (rstrip_last (String c1 l)) as Hlast.
  destruct (last_char (Str.rstrip (String c1 l))) as [c2|] eqn:Hc2.
  - by exists c1, c2.
  - by rewrite Hlast in Hf.
Qed.

Lemma all_chars_rev_app (p : ascii → bool) (s1 s2 : string) :
  Bs4.all_chars p (String.rev_app s1 s2) =
  Bs4.all_chars p s1 && Bs4.all_chars p s2.
Proof.
  revert s2. induction s1 as [|c s1 IH]; intros s2; [done|].
  cbn [String.rev_app Bs4.all_chars]. rewrite IH. cbn [Bs4.all_chars].
  by destruct (p c), (Bs4.all_chars p s1).
Qed.

Lemma all_chars_rev (p : ascii → bool) (s : string) :
  Bs4.all_chars p (String.rev s) = Bs4.all_chars p s.
Proof. unfold String.rev. rewrite all_chars_rev_app. cbn. by rewrite andb_true_r. Qed.

(** No line of [splitlines] holds a line boundary. *)
Lemma splitlines_from_no_break (s cur : string) (after_cr : bool) :
  Bs4.all_chars no_break cur = true →
  Forall (fun t => Bs4.all_chars no_break t = true)
         (Str.splitlines_from cur after_cr s).
Proof.
  revert cur after_cr. induction s as [|c s IH]; intros cur after_cr Hcur.
  - cbn [Str.splitlines_from]. destruct cur; [constructor|].
    constructor; [by rewrite all_chars_rev|constructor].
  - cbn [Str.splitlines_from].
    destruct (after_cr && (nat_of_ascii c =? 10)%nat); [by apply IH|].
    destruct (Str.is_linebreak c) eqn:Hc.
    + constructor; [by rewrite all_chars_rev|by apply IH].
    + apply IH. cbn [Bs4.all_chars]. unfold no_break at 1. by rewrite Hc.
Qed.

Lemma filter_Forall {A} (p : A → bool) (Q : A → Prop) (l : list A) :
  Forall Q l → Forall (fun x => p x = true ∧ Q x) (List.filter p l).
Proof.
  induction 1 as [|x l Hx Hl IH]; [constructor|]. cbn [List.filter].
  destruct (p x) eqn:Hp; [by constructor|done].
Qed.

(** The lines that remain are not empty, contain neither the email nor the
    phone, and hold no line boundary. *)
Lemma lines_of_Forall (text email phone : string) :
  Forall (fun t => t ≠ "" ∧ Str.contains email t = false ∧
                   Str.contains phone t = false ∧
                   Bs4.all_chars no_break t = true)
         (lines_of text email phone).
Proof.
  unfold lines_of.
  eapply Forall_impl;
    [apply filter_Forall, (splitlines_from_no_break text "" false eq_refl)|].
  cbn beta. intros t [Hkeep Hbreak].
  apply andb_true_iff in Hkeep as [[Hne He]%andb_true_iff Hp].
  rewrite negb_true_iff in Hne, He, Hp. by apply String.eqb_neq in Hne.
Qed.

(** Every entry comes from a block's text and a non-empty email. *)
Lemma elem_of_parse_entries (BeautifulSoup : string → Bs4.PageElement)
  (html : string) (e : Entry) :
  e ∈ parse_entries BeautifulSoup html →
  ∃ m, m ∈ Bs4.select_mailto (BeautifulSoup html) ∧
       email_of (Bs4.elem m) ≠ "" ∧
       e = entry_of_text (Bs4.get_text SEPARATOR (block_of m))
                         (email_of (Bs4.elem m)).
Proof.
  rewrite parse_entries_omap.
  intros (m & Hm & [? ?]%entry_of_link_Some)%list_elem_of_omap. eauto.
Qed.

(** X3.  The Email of every entry is not empty and has no white space at
    either end. *)
Theorem entry_email_trimmed (BeautifulSoup : string → Bs4.PageElement)
  (html : string) (e : Entry) :
  e ∈ parse_entries BeautifulSoup html → Email e ≠ "" ∧ trimmed (Email e).
Proof.
  intros (m & _ & Hne & ->)%elem_of_parse_entries. cbn [entry_of_text Email].
  split; [done|]. unfold email_of in *.
  by destruct (strip_trimmed
                 (Str.replace "mailto:" "" (Bs4.get (Bs4.elem m) "href" ""))).
Qed.

(** X4.  The Name and the Brokerage of every entry are empty or contain
    neither the entry's email, nor its phone, nor a line boundary. *)
Theorem entry_fields_clean (BeautifulSoup : string → Bs4.PageElement)
  (html : string) (e : Entry) :
  e ∈ parse_entries BeautifulSoup html →
  clean_field (Email e) (Phone e) (Name e) ∧
  clean_field (Email e) (Phone e) (Brokerage e).
Proof.
  intros (m & _ & _ & ->)%elem_of_parse_entries.
  unfold entry_of_text, clean_field. cbn [Email Phone Name Brokerage].
  pose proof (lines_of_Forall (Bs4.get_text SEPARATOR (block_of m))
                (email_of (Bs4.elem m))
                (phone_of (Bs4.get_text SEPARATOR (block_of m)))) as Hlines.
  destruct Hlines as [|t1 lines (_ & ? & ? & ?) Hlines]; [by split; left|].
  split; [by right|].
  destruct Hlines as [|t2 lines' (_ & ? & ? & ?) _]; [by left|by right].
Qed.

(** X5.  An entry with a Brokerage has a Name: the Brokerage is the second
    of the remaining lines, which are not empty. *)
Theorem entry_brokerage_needs_name (BeautifulSoup : string → Bs4.PageElement)
  (html : string) (e : Entry) :
  e ∈ parse_entries BeautifulSoup html → Brokerage e ≠ "" → Name e ≠ "".
Proof.
  intros (m & _ & _ & ->)%elem_of_parse_entries.
  unfold entry_of_text. cbn [Name Brokerage].
  pose proof (lines_of_Forall (Bs4.get_text SEPARATOR (block_of m))
                (email_of (Bs4.elem m))
                (phone_of (Bs4.get_text SEPARATOR (block_of m)))) as Hlines.
  by destruct Hlines as [|t1 lines (? & _) _].
Qed.

(** X6.  The phone taken from a block's text is empty exactly when no part
    of the text is matched by the phone pattern; otherwise it is the first
    part of the text that the pattern matches: no match starts before
    it. *)
Theorem phone_of_cases (text : string) :
  (phone_of text = "" ∧ ∀ a m b, text = a +:+ m +:+ b → ¬ lang Re.phone_pattern m)
  ∨ (∃ a b, text = a +:+ phone_of text +:+ b ∧
            lang Re.phone_pattern (phone_of text) ∧
            ∀ a1 a2 m' b', a = a1 +:+ a2 → a2 ≠ "" →
                           a2 +:+ phone_of text +:+ b = m' +:+ b' →
                           ¬ lang Re.phone_pattern m').
Proof.
  unfold phone_of. destruct (Re.search Re.phone_pattern text) as [m|] eqn:Hs.
  - right. apply search_leftmost_match in Hs as (a & b & ? & ? & ?). eauto.
  - left. split; [done|]. by apply search_None_iff.
Qed.

(** X7.  The Phone of every entry is empty or has exactly ten digits, in a
    text of ten to fourteen characters that the phone pattern matches. *)
Theorem entry_phone_ten_digits (BeautifulSoup : string → Bs4.PageElement)
  (html : string) (e : Entry) :
  e ∈ parse_entries BeautifulSoup html →
  Phone e = "" ∨
  (lang Re.phone_pattern (Phone e) ∧
   count_chars Str.isdigit (Phone e) = 10 ∧
   (10 ≤ String.length (Phone e) ≤ 14)%nat).
Proof.
  intros (m & _ & _ & ->)%elem_of_parse_entries. cbn [entry_of_text Phone].
  unfold phone_of.
  destruct (Re.search Re.phone_pattern (Bs4.get_text SEPARATOR (block_of m)))
    as [phone|] eqn:Hsearch; [|by left].
  apply search_leftmost_match in Hsearch as (a & b & _ & Hlang & _).
  right. split; [done|]. by apply phone_pattern_ten_digits.
Qed.

(** ** More on [deduplicate] *)

Lemma elem_of_keys_of (k : string) (rows : list Entry) :
  k ∈ keys_of rows ↔ ∃ r, r ∈ rows ∧ email_key r = k.
Proof.
  unfold keys_of. rewrite elem_of_list_to_set, list_elem_of_fmap. naive_solver.
Qed.

(** Only the non-empty keys of [seen] matter. *)
Lemma dedup_from_ext (s1 s2 : gset string) (rows : list Entry) :
  (∀ k, k ≠ "" → (k ∈ s1 ↔ k ∈ s2)) → dedup_from s1 rows = dedup_from s2 rows.
Proof.
  revert s1 s2. induction rows as [|r rows IH]; intros s1 s2 Hext; [done|].
  cbn [dedup_from].
  assert (negb (String.eqb (email_key r) "") &&
            negb (bool_decide (email_key r ∈ s1))
          = negb (String.eqb (email_key r) "") &&
            negb (bool_decide (email_key r ∈ s2))) as ->.
  { apply eq_true_iff_eq. rewrite !keep_test. naive_solver. }
  case_match.
  - f_equal. apply IH. intros k Hk. specialize (Hext k Hk). set_solver.
  - by apply IH.
Qed.

Lemma dedup_from_app (seen : gset string) (a b : list Entry) :
  dedup_from seen (a ++ b) =
  dedup_from seen a ++ dedup_from (seen ∪ keys_of a) b.
Proof.
  revert seen. induction a as [|r a IH]; intros seen.
  - cbn. apply dedup_from_ext. intros k _. unfold keys_of. set_solver.
  - cbn [app dedup_from]. case_match eqn:Hk.
    + rewrite IH. cbn [app]. do 2 f_equal. apply dedup_from_ext.
      intros k _. unfold keys_of. set_solver.
    + rewrite IH. f_equal. apply dedup_from_ext. intros k Hne.
      apply not_true_iff_false in Hk. rewrite keep_test in Hk.
      unfold keys_of. rewrite fmap_cons, list_to_set_cons.
      destruct (decide (k = email_key r)) as [->|]; [|set_solver].
      destruct (decide (email_key r ∈ seen)); [set_solver|tauto].
Qed.

(** Scanning a list that was already scanned with [seen1]. *)
Lemma dedup_from_dedup_from (seen1 seen2 : gset string) (rows : list Entry) :
  dedup_from seen2 (dedup_from seen1 rows) = dedup_from (seen2 ∪ seen1) rows.
Proof.
  revert seen1 seen2. induction rows as [|r rows IH]; intros seen1 seen2; [done|].
  cbn [dedup_from].
  destruct (negb (String.eqb (email_key r) "") &&
            negb (bool_decide (email_key r ∈ seen1))) eqn:H1;
  destruct (negb (String.eqb (email_key r) "") &&
            negb (bool_decide (email_key r ∈ seen2 ∪ seen1))) eqn:H12;
  try (apply keep_test in H1 as [? ?]);
  try (apply keep_test in H12 as [? ?]);
  try (apply not_true_iff_false in H1; rewrite keep_test in H1);
  try (apply not_true_iff_false in H12; rewrite keep_test in H12).
  - cbn [dedup_from].
    assert (negb (String.eqb (email_key r) "") &&
            negb (bool_decide (email_key r ∈ seen2)) = true) as ->
      by (apply keep_test; set_solver).
    rewrite IH. do 2 f_equal. set_solver.
  - cbn [dedup_from].
    assert (negb (String.eqb (email_key r) "") &&
            negb (bool_decide (email_key r ∈ seen2)) = false) as ->.
    { apply not_true_iff_false. rewrite keep_test.
      intros [_ Hns]. apply H12. split; [done|]. set_solver. }
    rewrite IH. apply dedup_from_ext. intros k _.
    destruct (decide (email_key r ∈ seen2)); [set_solver|].
    exfalso. apply H12. split; [done|set_solver].
  - exfalso. apply H1. split; [done|set_solver].
  - apply IH.
Qed.

(** The output has the non-empty keys of the input. *)
Lemma keys_of_dedup_from (rows : list Entry) (k : string) :
  k ≠ "" → (k ∈ keys_of (dedup_from ∅ rows) ↔ k ∈ keys_of rows).
Proof.
  intros Hk. rewrite !elem_of_keys_of. split.
  - intros (r & Hr & <-). exists r. split; [|done].
    eapply elem_of_sublist; [done|apply dedup_from_sublist].
  - intros (r & Hr & <-).
    destruct (dedup_from_covers ∅ rows r Hr Hk) as (r' & ? & ?); [set_solver|].
    eauto.
Qed.

(** X8.  Deduplicating a concatenation keeps the deduplicated first part
    and adds the first occurrences of the second part whose email is not
    in the first; it is the same as deduplicating the two deduplicated
    parts put together. *)
Theorem deduplicate_app (a b : list Entry) :
  deduplicate (a ++ b) = deduplicate a ++ dedup_from (keys_of a) b ∧
  deduplicate (a ++ b) = deduplicate (deduplicate a ++ deduplicate b).
Proof.
  rewrite !deduplicate_dedup_from, !dedup_from_app.
  rewrite (dedup_from_dedup_from ∅ ∅ a), dedup_from_dedup_from.
  assert (∅ ∪ ∅ = (∅ : gset string)) as -> by set_solver.
  assert (dedup_from (∅ ∪ keys_of a) b = dedup_from (keys_of a) b) as ->
    by (f_equal; set_solver).
  split; [done|]. f_equal. apply dedup_from_ext. intros k Hk.
  pose proof (keys_of_dedup_from a k Hk). set_solver.
Qed.

Lemma dedup_from_fixed (seen : gset string) (rows : list Entry) :
  NoDup (email_key <$> rows) →
  Forall (fun r => email_key r ≠ "" ∧ email_key r ∉ seen) rows →
  dedup_from seen rows = rows.
Proof.
  revert seen. induction rows as [|r rows IH]; intros seen Hnd Hall; [done|].
  rewrite fmap_cons in Hnd. apply NoDup_cons in Hnd as [Hr Hnd].
  apply Forall_cons in Hall as [[Hne Hns] Hall].
  cbn [dedup_from].
  assert (negb (String.eqb (email_key r) "") &&
          negb (bool_decide (email_key r ∈ seen)) = true) as ->
    by (by apply keep_test).
  f_equal. apply IH; [done|].
  apply Forall_forall. intros r' Hr'.
  rewrite Forall_forall in Hall. destruct (Hall r' Hr') as [? ?].
  split; [done|]. intros [Heq%elem_of_singleton|?]%elem_of_union; [|done].
  apply Hr. rewrite <- Heq. apply list_elem_of_fmap. eauto.
Qed.

(** X9.  The lists that [deduplicate] leaves as they are are those whose
    emails are not empty and pairwise different up to letter case. *)
Theorem deduplicate_fixed_iff (rows : list Entry) :
  deduplicate rows = rows ↔
  NoDup (email_key <$> rows) ∧ Forall (fun r => Email r ≠ "") rows.
Proof.
  rewrite deduplicate_dedup_from. split.
  - intros Hfix. split.
    + rewrite <- Hfix. apply dedup_from_NoDup.
    + apply Forall_forall. intros r Hr. rewrite <- Hfix in Hr.
      apply dedup_from_fresh in Hr as [? _]. by apply email_key_nonempty.
  - intros [Hnd Hne]. apply dedup_from_fixed; [done|].
    eapply Forall_impl; [exact Hne|]. cbn beta. intros r Hr.
    split; [by apply email_key_nonempty|set_solver].
Qed.

(** X10.  The number of rows [deduplicate] returns is the number of
    different non-empty emails of the input, up to letter case. *)
Theorem deduplicate_length (rows : list Entry) :
  List.length (deduplicate rows) = size (keys_of rows ∖ {[""]}).
Proof.
  rewrite deduplicate_dedup_from.
  rewrite <- (length_fmap email_key).
  rewrite <- (size_list_to_set (C:=gset string)) by apply dedup_from_NoDup.
  f_equal. apply set_eq. intros k.
  change (list_to_set (email_key <$> dedup_from ∅ rows))
    with (keys_of (dedup_from ∅ rows)).
  rewrite elem_of_difference, not_elem_of_singleton.
  destruct (decide (k = "")) as [->|Hk].
  - split; [|tauto]. intros (r & Hr & Hkey)%elem_of_keys_of.
    by apply dedup_from_fresh in Hr as [? _].
  - pose proof (keys_of_dedup_from rows k Hk). tauto.
Qed.

(** ** Runs that return *)

Lemma bind_Ok {A B} (m : M A) (f : A → M B) (w : World) (st st' : State) (b : B) :
  bind m f w st = (st', Ok b) →
  ∃ st1 a, m w st = (st1, Ok a) ∧ f a w st1 = (st', Ok b).
Proof. unfold bind. destruct (m w st) as [st1 [a|e]]; [eauto|done]. Qed.

Lemma call_Ok (c : Call) (w : World) (st st' : State) (u : unit) :
  call c w st = (st', Ok u) → st' = effect c (record c st).
Proof. unfold call. destruct (raises w (trace st) c); congruence. Qed.

Lemma trace_call_Ok (c : Call) (w : World) (st st' : State) (u : unit) :
  call c w st = (st', Ok u) → trace st' = trace st ++ [c].
Proof. intros ->%call_Ok. by rewrite trace_effect. Qed.

Lemma trace_emit (c : Call) (w : World) (st : State) :
  trace (fst (emit c w st)) = trace st ++ [c].
Proof. unfold emit. cbn [fst]. by rewrite trace_effect. Qed.

(** Unfolds a run that returned into the runs of its calls. *)
Ltac run_Ok H :=
  repeat match type of H with
         | bind _ _ _ _ = (_, Ok _) =>
             let st1 := fresh "st" in
             let a := fresh "a" in
             let H1 := fresh "Hrun" in
             apply bind_Ok in H as (st1 & a & H1 & H)
         end.

(** X11.  When [fetch_with_requests] returns, the status was 200, the text
    is the body of the response, and the calls made are the request
    followed by one pause of one second. *)
Theorem fetch_with_requests_returns (url : string) (w : World) (st st' : State)
  (text : string) :
  fetch_with_requests url w st = (st', Ok text) →
  response w url = (200%Z, text) ∧
  trace st' = trace st ++ [requests_get url; time_sleep 1].
Proof.
  unfold fetch_with_requests. intros H.
  apply bind_Ok in H as (st1 & [status body] & Hget & H).
  unfold call_for in Hget. apply bind_Ok in Hget as (st0 & [] & Hcall & Hans).
  injection Hans as <- Hresp. apply trace_call_Ok in Hcall.
  destruct (Z.eqb_spec status 200) as [->|]; [|done]. cbn [negb] in H.
  apply bind_Ok in H as (st2 & [] & Hsleep & Hret).
  injection Hret as <- <-. apply trace_call_Ok in Hsleep.
  split; [done|]. rewrite Hsleep, Hcall. by rewrite <- app_assoc.
Qed.

Lemma static_page_witness :
  response (quiet_world markup_A markup_lines) URL = (200%Z, markup_A) ∧
  trace (fst (fetch_with_requests URL (quiet_world markup_A markup_lines) initial))
  = trace initial ++ [requests_get URL; time_sleep 1].
Proof.
  eapply (fetch_with_requests_returns URL (quiet_world markup_A markup_lines)
            initial _ markup_A).
  vm_compute. reflexivity.
Defined.

(** X12.  When the response's status is not 200, [fetch_with_requests]
    raises the [RuntimeError] that names the status and the address, right
    after the request: there is no pause and no retry. *)
Theorem fetch_with_requests_bad_status (url : string) (w : World) (st : State)
  (status : Z) (body : string) :
  raises w (trace st) (requests_get url) = false →
  response w url = (status, body) →
  status ≠ 200%Z →
  fetch_with_requests url w st =
  (record (requests_get url) st,
   Raise (RuntimeError
            ("HTTP " +:+ pretty status +:+ " while fetching " +:+ url))).
Proof.
  intros Hget Hresp Hstatus. unfold fetch_with_requests, call_for, bind, call.
  rewrite Hget, Hresp. cbn [effect].
  by destruct (Z.eqb_spec status 200).
Qed.

Lemma not_found_witness :
  fetch_with_requests URL (status_world 404 markup_A) initial =
  (record (requests_get URL) initial,
   Raise (RuntimeError ("HTTP " +:+ pretty 404%Z +:+ " while fetching " +:+ URL))).
Proof.
  apply (fetch_with_requests_bad_status URL (status_world 404 markup_A)
           initial 404 markup_A); [reflexivity|reflexivity|discriminate].
Defined.

(** X13.  When [fetch_with_playwright] returns, what it returns is the
    content of the page, and it has made all its calls in order: the browser
    was launched with the given flag, one page was opened on the given
    address, and the browser was closed before the context was left. *)
Theorem fetch_with_playwright_returns (url : string) (headless : bool)
  (w : World) (st st' : State) (content : string) :
  fetch_with_playwright url headless w st = (st', Ok content) →
  content = rendered w ∧
  trace st' = trace st ++ playwright_calls url headless.
Proof.
  unfold fetch_with_playwright, with_sync_playwright.
  destruct (call sync_playwright_enter w st) as [st0 [[]|e]] eqn:Henter; [|done].
  apply trace_call_Ok in Henter.
  match goal with
  | |- (let '(_, _) := ?body w st0 in _) = _ → _ =>
      destruct (body w st0) as [st2 r] eqn:Hbody
  end.
  intros [= <- ->]. cbn [trace].
  apply bind_Ok in Hbody as (s1 & [] & H1%trace_call_Ok & Hbody).
  apply bind_Ok in Hbody as (s2 & [] & H2%trace_call_Ok & Hbody).
  apply bind_Ok in Hbody as (s3 & [] & H3%trace_call_Ok & Hbody).
  apply bind_Ok in Hbody as (s4 & [] & H4%trace_call_Ok & Hbody).
  apply bind_Ok in Hbody as (s5 & c & H5 & Hbody).
  apply bind_Ok in Hbody as (s6 & [] & H6%trace_call_Ok & Hbody).
  injection Hbody as <- <-.
  unfold call_for in H5.
  apply bind_Ok in H5 as (s5' & [] & H5%trace_call_Ok & Hread).
  injection Hread as <- <-.
  split; [done|].
  rewrite H6, H5, H4, H3, H2, H1, Henter.
  unfold playwright_calls. by rewrite <- !app_assoc.
Qed.

Lemma rendered_page_witness :
  markup_lines = rendered (quiet_world markup_empty markup_lines) ∧
  trace (fst (fetch_with_playwright URL true
                (quiet_world markup_empty markup_lines) initial))
  = trace initial ++ playwright_calls URL true.
Proof.
  eapply (fetch_with_playwright_returns URL true
            (quiet_world markup_empty markup_lines) initial _ markup_lines).
  vm_compute. reflexivity.
Defined.

(** Finds the call [c] of [Heq : calls = pre ++ c :: post] in a list of
    calls that is written out: one goal for each place. *)
Ltac locate_call Heq :=
  match type of Heq with
  | [] = ?pre ++ _ :: _ => destruct pre; discriminate Heq
  | _ :: _ = ?pre ++ _ :: _ =>
      destruct pre as [|? ?]; cbn [app] in Heq;
      [ injection Heq as <- <- | injection Heq as <- Heq; locate_call Heq ]
  end.

(** X14.  Whatever the world answers, the calls [append_to_sheet] makes
    are the first ones of a fixed list: reading the key file, authorizing,
    opening the spreadsheet and its tab, and, for a list of rows that is
    not empty, one append of all the rows, each with its four columns in
    order.  So there is at most one append, after everything else.  A
    call that raises is the last call made, and its exception is the
    result; the function returns only after the whole list; and when it
    fails for the credentials, no call has been made. *)
Theorem append_to_sheet_calls (rows : list Entry) (w : World) (st : State) :
  ∃ creds_path new,
    trace (fst (append_to_sheet rows w st)) = trace st ++ new ∧
    new `prefix_of` upload_calls creds_path rows ∧
    (∀ pre c post,
       new = pre ++ c :: post → raises w (trace st ++ pre) c = true →
       post = [] ∧ snd (append_to_sheet rows w st) = Raise (Raised c)) ∧
    match snd (append_to_sheet rows w st) with
    | Ok _ => new = upload_calls creds_path rows
    | Raise (Raised c) =>
        ∃ pre, new = pre ++ [c] ∧ raises w (trace st ++ pre) c = true
    | Raise _ => new = []
    end.
Proof.
  unfold append_to_sheet, bind, os_environ_get, Path_exists, raise, ret, call,
    upload_calls.
  assert (∀ (pre : list Call) c post, [] = pre ++ c :: post → False) as Hnil
    by (by intros []).
  destruct (environ w "GOOGLE_CREDS_JSON") as [p|];
    [|exists "", []; cbn [fst snd]; rewrite app_nil_r;
      (split; [done|split; [apply prefix_nil|split; [|done]]]);
      intros pre c post Heq; by destruct (Hnil _ _ _ Heq)].
  exists p.
  destruct (String.eqb p "");
    [exists []; cbn [fst snd]; rewrite app_nil_r;
     (split; [done|split; [apply prefix_nil|split; [|done]]]);
     intros pre c post Heq; by destruct (Hnil _ _ _ Heq)|].
  destruct (stat_error w p);
    [exists []; cbn [fst snd]; rewrite app_nil_r;
     (split; [done|split; [apply prefix_nil|split; [|done]]]);
     intros pre c post Heq; by destruct (Hnil _ _ _ Heq)|].
  destruct (path_exists w p); cbn [negb];
    [|exists []; cbn [fst snd]; rewrite app_nil_r;
      (split; [done|split; [apply prefix_nil|split; [|done]]]);
      intros pre c post Heq; by destruct (Hnil _ _ _ Heq)].
  clear Hnil.
  destruct rows as [|r rows]; cbn [List.map];
  repeat match goal with
         | |- context [raises w ?t ?c] =>
             destruct (raises w t c) eqn:?;
             cbn [fst snd effect record trace playwright_running browser_open]
         end;
  (eexists; split; [rewrite <- ?app_assoc; reflexivity|]);
  cbn [app]; rewrite <- ?app_assoc in *; cbn [app] in *;
  (split; [by eexists|split]).
  all: try (intros pre c post Heq Hr; locate_call Heq;
            rewrite ?app_nil_r in Hr; cbn [app] in Hr;
            first [congruence | by split]).
  all: try reflexivity.
  all: match goal with
       | |- ∃ pre, ?new = pre ++ [_] ∧ _ =>
           exists (removelast new); cbn [removelast app];
           rewrite ?app_nil_r; by split
       end.
Qed.

(** X15.  When [append_to_sheet] returns, the credential file is in place
    and all the calls were made: for rows that are not empty, exactly one
    append with one row per entry, in the order of the entries. *)
Theorem append_to_sheet_returns (rows : list Entry) (w : World) (st st' : State) :
  append_to_sheet rows w st = (st', Ok tt) →
  ∃ creds_path,
    environ w "GOOGLE_CREDS_JSON" = Some creds_path ∧
    path_exists w creds_path = true ∧
    trace st' = trace st ++ upload_calls creds_path rows.
Proof.
  unfold append_to_sheet, bind, os_environ_get, Path_exists, raise, ret, call,
    upload_calls.
  destruct (environ w "GOOGLE_CREDS_JSON") as [p|]; [|done].
  destruct (String.eqb p ""); [done|].
  destruct (stat_error w p); [done|].
  destruct (path_exists w p) eqn:Hp; cbn [negb]; [|done].
  destruct rows as [|r rows]; cbn [List.map];
  repeat match goal with
         | |- context [raises w ?t ?c] => destruct (raises w t c); cbn; try done
         end;
  intros [= <-]; exists p; (split; [done|split; [done|]]);
  cbn; by rewrite <- ?app_assoc.
Qed.

Lemma upload_witness :
  ∃ creds_path,
    environ (quiet_world markup_A markup_A) "GOOGLE_CREDS_JSON" = Some creds_path ∧
    path_exists (quiet_world markup_A markup_A) creds_path = true ∧
    trace (fst (append_to_sheet [jane; bob] (quiet_world markup_A markup_A) initial))
    = trace initial ++ upload_calls creds_path [jane; bob].
Proof.
  eapply (append_to_sheet_returns [jane; bob] (quiet_world markup_A markup_A)
            initial _).
  vm_compute. reflexivity.
Defined.

(** ** What the calls of a run are *)

Lemma emits_impl {A} (P Q : Call → Prop) (m : M A) :
  (∀ c, P c → Q c) → emits P m → emits Q m.
Proof.
  intros HPQ Hm w st. destruct (Hm w st) as (new & ? & Hnew).
  exists new. split; [done|]. by eapply Forall_impl.
Qed.

Lemma emits_ret {A} (P : Call → Prop) (a : A) : emits P (ret a).
Proof. intros w st. exists []. by rewrite app_nil_r. Qed.

Lemma emits_raise {A} (P : Call → Prop) (e : Exception) :
  emits P (raise (A:=A) e).
Proof. intros w st. exists []. by rewrite app_nil_r. Qed.

Lemma emits_read {A} (P : Call → Prop) (f : World → A) :
  emits P (fun w st => (st, Ok (f w))).
Proof. intros w st. exists []. by rewrite app_nil_r. Qed.

Lemma emits_call (P : Call → Prop) (c : Call) : P c → emits P (call c).
Proof.
  intros Hc w st. exists [c]. unfold call.
  destruct (raises w (trace st) c); cbn [fst]; rewrite ?trace_effect;
    (split; [done|by constructor]).
Qed.

Lemma emits_emit (P : Call → Prop) (c : Call) : P c → emits P (emit c).
Proof.
  intros Hc w st. exists [c]. rewrite trace_emit. split; [done|by constructor].
Qed.

Lemma emits_bind {A B} (P : Call → Prop) (m : M A) (f : A → M B) :
  emits P m → (∀ a, emits P (f a)) → emits P (bind m f).
Proof.
  intros Hm Hf w st. unfold bind. destruct (Hm w st) as (new1 & Ht1 & Hnew1).
  destruct (m w st) as [st1 [a|e]]; cbn [fst] in *; [|by exists new1].
  destruct (Hf a w st1) as (new2 & Ht2 & Hnew2).
  exists (new1 ++ new2). rewrite Ht2, Ht1, app_assoc. split; [done|].
  by apply Forall_app.
Qed.

Lemma emits_Path_exists (P : Call → Prop) (p : string) :
  emits P (Path_exists p).
Proof.
  intros w st. exists []. unfold Path_exists.
  destruct (stat_error w p); by rewrite app_nil_r.
Qed.

Lemma emits_prefix {A} (calls : list Call) (m : M A) :
  (∀ w st, ∃ new, trace (fst (m w st)) = trace st ++ new ∧
                  new `prefix_of` calls) →
  emits (fun c => c ∈ calls) m.
Proof.
  intros Hm w st. destruct (Hm w st) as (new & ? & Hpre).
  exists new. split; [done|]. apply Forall_forall. intros c Hc.
  by eapply elem_of_prefix.
Qed.

(** Whatever the world answers, the calls of [fetch_with_playwright] are
    the first ones of its list of calls, followed, once the context is
    entered, by the exit. *)
Lemma emits_fetch_with_playwright (url : string) (headless : bool) :
  emits (fun c => c ∈ playwright_calls url headless)
        (fetch_with_playwright url headless).
Proof.
  intros w st. unfold fetch_with_playwright, with_sync_playwright.
  unfold call at 1. destruct (raises w (trace st) sync_playwright_enter).
  - exists [sync_playwright_enter]. split; [done|].
    repeat constructor.
  - match goal with
    | |- context [let '(_, _) := ?body w ?st1 in _] =>
        assert (emits (fun c => c ∈ playwright_calls url headless) body)
          as Hbody;
        [|destruct (Hbody w st1) as (new & Hnew & Hall);
          destruct (body w st1) as [st2 r]]
    end.
    { unfold call_for, playwright_calls.
      repeat first [ apply emits_ret | apply emits_read
                   | apply emits_call; set_solver
                   | apply emits_bind; [|intros ?] ]. }
    cbn [fst] in *. rewrite trace_effect in Hnew. rewrite trace_effect.
    cbn [record trace] in *.
    exists ([sync_playwright_enter] ++ new ++ [sync_playwright_exit]).
    rewrite Hnew, <- !app_assoc. split; [done|].
    apply Forall_app. split; [repeat constructor|].
    apply Forall_app. split; [done|].
    apply Forall_singleton. unfold playwright_calls. set_solver.
Qed.

Lemma emits_fetch_with_requests (url : string) :
  emits (fun c => c ∈ [requests_get url; time_sleep 1])
        (fetch_with_requests url).
Proof.
  unfold fetch_with_requests, call_for.
  repeat first [ apply emits_ret | apply emits_raise | apply emits_read
               | apply emits_call; set_solver
               | apply emits_bind; [|intros ?]
               | match goal with
                 | |- emits _ (let '(_, _) := ?x in _) => destruct x
                 | |- emits _ (if ?b then _ else _) => destruct b
                 end ].
Qed.

Lemma emits_append_to_sheet (rows : list Entry) :
  emits (fun c => ∃ creds_path, c ∈ upload_calls creds_path rows)
        (append_to_sheet rows).
Proof.
  unfold append_to_sheet, os_environ_get.
  apply emits_bind; [apply emits_read|]. intros [p|]; [|apply emits_raise].
  destruct (String.eqb p ""); [apply emits_raise|].
  apply emits_bind; [apply emits_Path_exists|].
  intros []; cbn [negb]; [|apply emits_raise].
  unfold upload_calls.
  repeat (apply emits_bind; [apply emits_call; exists p; set_solver|intros _]).
  destruct rows as [|r rows]; cbn [List.map]; [apply emits_ret|].
  apply emits_call. exists p. set_solver.
Qed.




Section MainRuns.

Variable BeautifulSoup : string → Bs4.PageElement.

Lemma emits_main (headless_arg : option string) :
  emits (call_of_main (parse_args headless_arg))
        (main BeautifulSoup headless_arg).
Proof.
  unfold main, setup_logging.
  apply emits_bind; [by apply emits_call|intros _].
  apply emits_bind;
    [apply emits_bind; [by apply emits_call|intros _; by apply emits_call]|].
  intros _. apply emits_bind; [by apply emits_emit|intros _].
  apply emits_bind.
  { eapply emits_impl; [|apply emits_fetch_with_requests].
    intros c Hc. repeat (apply elem_of_cons in Hc as [->|Hc]); try done.
    by apply elem_of_nil in Hc. }
  intros html. apply emits_bind.
  { destruct (parse_entries BeautifulSoup html); [|apply emits_ret].
    apply emits_bind; [by apply emits_emit|intros _].
    apply emits_bind; [|intros ?; apply emits_ret].
    eapply emits_impl; [|apply emits_fetch_with_playwright].
    intros c Hc. unfold playwright_calls in Hc.
    repeat (apply elem_of_cons in Hc as [->|Hc]); try done.
    by apply elem_of_nil in Hc. }
  intros entries. apply emits_bind; [by apply emits_emit|intros _].
  apply emits_bind; [|intros _; by apply emits_emit].
  eapply emits_impl; [|apply emits_append_to_sheet].
  intros c (p & Hc). unfold upload_calls in Hc.
  apply elem_of_app in Hc as [Hc|Hc].
  - repeat (apply elem_of_cons in Hc as [->|Hc]); try done.
    by apply elem_of_nil in Hc.
  - destruct (deduplicate entries) as [|r rows] eqn:Hrows;
      [by apply elem_of_nil in Hc|].
    apply list_elem_of_singleton in Hc as ->. split; [done|].
    exists (r :: rows). split; [done|]. split; [done|].
    rewrite <- Hrows, deduplicate_dedup_from. split.
    + apply dedup_from_NoDup.
    + apply Forall_forall. intros r' [? _]%dedup_from_fresh.
      by apply email_key_nonempty.
Qed.

(** X16.  Whatever the world answers, every call of a run of [main] is
    on the fixed address, spreadsheet and tab; the browser is launched with
    the flag of the command line; and every append carries at least one
    row, with emails that are not empty and pairwise different up to letter
    case. *)
Theorem main_calls_are_safe (headless_arg : option string) (w : World) :
  Forall (call_of_main (parse_args headless_arg))
         (trace (fst (main BeautifulSoup headless_arg w initial))).
Proof.
  destruct (emits_main headless_arg w initial) as (new & Hnew & Hall).
  rewrite Hnew. by apply Forall_app.
Qed.



(** X18.  When the static phase of [main] raises, be it for the status of
    the response, the run ends there with that exception: no fallback to
    the rendered fetch, no upload. *)
Theorem main_static_failure (headless_arg : option string) (w : World)
  (st1 : State) (e : Exception) :
  static_phase w initial = (st1, Raise e) →
  main BeautifulSoup headless_arg w initial = (st1, Raise e) ∧
  trace st1 `prefix_of` static_calls.
Proof.
  intros Hstatic. split.
  - rewrite main_after_static. unfold bind. by rewrite Hstatic.
  - revert Hstatic.
    unfold static_phase, setup_logging, fetch_with_requests, call_for, bind,
      call, emit, raise, ret, static_calls.
    cbn [trace initial app].
    repeat match goal with
           | |- context [raises w ?t ?c] =>
               destruct (raises w t c);
               cbn [effect record trace playwright_running browser_open app]
           end;
      try destruct (response w URL) as [status body];
      try destruct (negb (Z.eqb status 200));
      cbn [effect record trace playwright_running browser_open app];
      repeat match goal with
             | |- context [raises w ?t ?c] =>
                 destruct (raises w t c);
                 cbn [effect record trace playwright_running browser_open app]
             end;
      intros [= <- <-]; cbn [trace]; by eexists.
Qed.

(** One step of a run whose calls are unfolded: the next answer of the
    world, or the next test of the code, is decided. *)
Ltac run_step :=
  match goal with
  | |- context [raises ?w ?t ?c] => destruct (raises w t c)
  | |- context [Z.eqb ?status 200] =>
      destruct (Z.eqb_spec status 200) as [->|]
  | |- context [match parse_entries ?bs ?html with _ => _ end] =>
      destruct (parse_entries bs html) as [|? ?] eqn:Hstatic
  | |- context [String.eqb ?p ""] => destruct (String.eqb p "")
  | |- context [stat_error ?w ?p] => destruct (stat_error w p)
  | |- context [path_exists ?w ?p] => destruct (path_exists w p)
  | |- context [List.map _ (deduplicate ?entries)] =>
      destruct (deduplicate entries) as [|? ?] eqn:Hrows
  end.

(** X19.  When a run of [main] returns, the static response had status
    200 and the credentials were in place, and the calls of the run are, in
    order: the static phase; the fallback, if and only if the static page
    has no entry; the log of the number of rows; the upload of the
    deduplicated entries of the static page, or of the rendered page after a
    fallback; the log of the completion. *)
Theorem main_returns (headless_arg : option string) (w : World) (st : State) :
  main BeautifulSoup headless_arg w initial = (st, Ok tt) →
  ∃ html creds_path,
    response w URL = (200%Z, html) ∧
    environ w "GOOGLE_CREDS_JSON" = Some creds_path ∧
    let static := parse_entries BeautifulSoup html in
    let entries := match static with
                   | [] => parse_entries BeautifulSoup (rendered w)
                   | _ => static
                   end in
    let rows := deduplicate entries in
    trace st =
      static_calls
      ++ match static with
         | [] => fallback_calls (parse_args headless_arg)
         | _ => []
         end
      ++ [logging_info ("Parsed " +:+ pretty (List.length rows) +:+ " unique rows")]
      ++ upload_calls creds_path rows
      ++ [COMPLETED].
Proof.
  unfold main, setup_logging, fetch_with_requests, fetch_with_playwright,
    with_sync_playwright, call_for, append_to_sheet, os_environ_get,
    Path_exists, bind, call, emit, raise, ret, initial.
  cbn [trace app].
  destruct (response w URL) as [status body] eqn:Hresp.
  destruct (environ w "GOOGLE_CREDS_JSON") as [p|] eqn:Henv.
  all: repeat (run_step;
               cbn [List.map effect record trace playwright_running
                      browser_open negb app];
               try done).
  all: intros [= <-]; exists body, p; (split; [done|split; [done|]]);
    rewrite Hstatic; cbv iota beta; rewrite Hrows;
    unfold static_calls, fallback_calls, playwright_calls, upload_calls,
      COMPLETED; reflexivity.
Qed.

End MainRuns.

(** ** Links and entries *)

(** X1.  The entries follow the links: their emails are, in document order,
    the emails of the [mailto:] links that are not empty, so there are never
    more entries than links. *)
Theorem entries_follow_links (BeautifulSoup : string → Bs4.PageElement)
  (html : string) :
  let links := Bs4.select_mailto (BeautifulSoup html) in
  Email <$> parse_entries BeautifulSoup html =
    List.filter (fun email => negb (String.eqb email ""))
      ((fun m => email_of (Bs4.elem m)) <$> links) ∧
  (List.length (parse_entries BeautifulSoup html) ≤ List.length links)%nat.
Proof.
  cbv zeta. split; [apply parse_entries_emails|].
  rewrite parse_entries_omap.
  induction (Bs4.select_mailto (BeautifulSoup html)) as [|m l IH]; [done|].
  cbn [omap list_omap List.length]. destruct (entry_of_link m); cbn; lia.
Qed.

(** X2.  For a link whose [href] is [mailto:] followed by a text in which
    [mailto:] does not occur again, the email is that text without the
    white space around it. *)
Theorem email_is_text_after_scheme (mailto : Bs4.PageElement) (rest : string) :
  Bs4.get mailto "href" "" = "mailto:" +:+ rest →
  Str.contains "mailto:" rest = false →
  email_of mailto = Str.strip rest.
Proof.
  intros Hhref Habsent. unfold email_of.
  rewrite Hhref, replace_mailto_prefix. by rewrite replace_absent.
Qed.

Lemma spaced_href_witness :
  email_of (Bs4.Tag "a" [("href", "mailto: jane@ex.com ")] []) =
  Str.strip " jane@ex.com ".
Proof.
  apply (email_is_text_after_scheme
           (Bs4.Tag "a" [("href", "mailto: jane@ex.com ")] []) " jane@ex.com ");
    reflexivity.
Defined.

(** The entry of the block whose fields are on lines of their own. *)
Lemma lines_entry_parsed :
  mkEntry "Jane Doe " "ABC Realty " "jane@ex.com" "(705) 555-1234"
  ∈ parse_entries Bs4.html_parser markup_lines.
Proof. apply list_elem_of_In. vm_compute. left. reflexivity. Defined.

Lemma trimmed_email_witness :
  Email (mkEntry "Jane Doe " "ABC Realty " "jane@ex.com" "(705) 555-1234") ≠ "" ∧
  trimmed (Email (mkEntry "Jane Doe " "ABC Realty " "jane@ex.com" "(705) 555-1234")).
Proof.
  exact (entry_email_trimmed Bs4.html_parser markup_lines _ lines_entry_parsed).
Defined.

Lemma clean_fields_witness :
  clean_field "jane@ex.com" "(705) 555-1234" "Jane Doe " ∧
  clean_field "jane@ex.com" "(705) 555-1234" "ABC Realty ".
Proof.
  exact (entry_fields_clean Bs4.html_parser markup_lines _ lines_entry_parsed).
Defined.

Lemma brokerage_with_name_witness : "Jane Doe " ≠ "".
Proof.
  apply (entry_brokerage_needs_name Bs4.html_parser markup_lines _
           lines_entry_parsed).
  discriminate.
Defined.

Lemma ten_digits_witness :
  "(705) 555-1234" = "" ∨
  (lang Re.phone_pattern "(705) 555-1234" ∧
   count_chars Str.isdigit "(705) 555-1234" = 10 ∧
   (10 ≤ String.length "(705) 555-1234" ≤ 14)%nat).
Proof.
  exact (entry_phone_ten_digits Bs4.html_parser markup_lines _
           lines_entry_parsed).
Defined.

(** A static response with status 404. *)
Lemma not_found_run_witness :
  main Bs4.html_parser None (status_world 404 markup_A) initial =
    (record (requests_get URL)
       (fst (emit (logging_info "Starting scrape") (status_world 404 markup_A)
               (fst (setup_logging (status_world 404 markup_A)
                       (fst (call load_dotenv (status_world 404 markup_A)
                               initial)))))),
     Raise (RuntimeError
              ("HTTP " +:+ pretty 404%Z +:+ " while fetching " +:+ URL))) ∧
  [load_dotenv; mkdir "logs"; logging_basicConfig "logs/scrape.log";
   logging_info "Starting scrape"; requests_get URL]
  `prefix_of` static_calls.
Proof.
  apply (main_static_failure Bs4.html_parser None (status_world 404 markup_A)).
  vm_compute. reflexivity.
Defined.

(** A run with entries on the static page. *)
Lemma static_run_witness :
  ∃ html creds_path,
    response (quiet_world markup_lines markup_empty) URL = (200%Z, html) ∧
    environ (quiet_world markup_lines markup_empty) "GOOGLE_CREDS_JSON"
      = Some creds_path ∧
    let static := parse_entries Bs4.html_parser html in
    let entries := match static with
                   | [] => parse_entries Bs4.html_parser
                             (rendered (quiet_world markup_lines markup_empty))
                   | _ => static
                   end in
    let rows := deduplicate entries in
    trace (fst (main Bs4.html_parser None
                  (quiet_world markup_lines markup_empty) initial)) =
      static_calls
      ++ match static with
         | [] => fallback_calls (parse_args None)
         | _ => []
         end
      ++ [logging_info ("Parsed " +:+ pretty (List.length rows) +:+ " unique rows")]
      ++ upload_calls creds_path rows
      ++ [COMPLETED].
Proof.
  apply (main_returns Bs4.html_parser None
           (quiet_world markup_lines markup_empty)).
  vm_compute. reflexivity.
Defined.
